(** * Keyword classifier and prompt composer of the telecom assistant

    A shallow embedding of [TelecomPromptGenerator] from
    [telecom-llm-assistant.py]: the keyword table, the context templates,
    [_calculate_keyword_matches], [_calculate_confidence_score],
    [_classify_query] and [generate_prompt], followed by the properties
    the specification states about them.

    Modelling conventions.
    - A Python [str] is a [string]; the text handled here is ASCII, and
      [lower] maps 'A'..'Z' to 'a'..'z' and leaves every other character
      alone, which is what [str.lower] does on ASCII text.
    - A Python [dict] keeps its insertion order, and the classifier depends
      on it (the sort is stable), so dictionaries are association lists
      with the update operations written out.
    - Confidence scores are exact rationals [Q]; the lemmas on binary64
      scores at the end check, on every combination of match counts the
      keyword table can produce, that IEEE binary64 evaluation takes the
      same decisions and prints the same confidence.
    - [secondary_types] is a Python [set]; it is a [gset], and the order in
      which a [for] loop visits it is an explicit parameter of the
      composer. *)

From Stdlib Require Import QArith Qabs Qminmax Lqa Ascii String Floats.
From stdpp Require Import base gmap strings list pretty sorting.

(** ** Strings *)

(** [chr(10)] *)
Definition newline : ascii := ascii_of_nat 10.

Definition nl : string := String newline "".

(** [str.lower] on one ASCII character. *)
Definition lower_char (c : ascii) : ascii :=
  let n := N_of_ascii c in
  if ((65 <=? n) && (n <=? 90))%N then ascii_of_N (n + 32) else c.


Fixpoint lower (s : string) : string :=
  match s with
  | EmptyString => EmptyString
  | String c s' => String (lower_char c) (lower s')
  end.


(** [kw in s] for two strings: [kw] occurs in [s] as a substring. *)
Fixpoint contains (kw s : string) : bool :=
  String.prefix kw s ||
  match s with
  | EmptyString => false
  | String _ s' => contains kw s'
  end.

(** [s.split(sep)] for a one-character separator. *)
Fixpoint split (sep : ascii) (s : string) : list string :=
  match s with
  | EmptyString => [EmptyString]
  | String c s' =>
      if decide (c = sep) then EmptyString :: split sep s'
      else match split sep s' with
           | [] => [String c EmptyString]
           | w :: ws => String c w :: ws
           end
  end.

(** [sep.join(l)]. *)
Definition join (sep : string) (l : list string) : string :=
  String.concat sep l.

(** [l[i:j]] for [0 <= i <= j]. *)
Definition slice {A} (i j : nat) (l : list A) : list A :=
  take (j - i) (drop i l).

(** The pieces of an f-string, glued together. *)
Definition fstring (pieces : list string) : string :=
  String.concat "" pieces.

(** ** The data model *)

Inductive QueryType : Set :=
  | PROCEDURE | ARCHITECTURE | PROTOCOL | INTERFACE | SECURITY
  | PERFORMANCE | QOS | RELIABILITY | DEPLOYMENT | INTERWORKING
  | MIGRATION | TROUBLESHOOTING | COMPLIANCE | FEATURE | GENERAL.

(** The members of the enumeration in the order of their declaration. *)
Definition QueryType_members : list QueryType :=
  [PROCEDURE; ARCHITECTURE; PROTOCOL; INTERFACE; SECURITY;
   PERFORMANCE; QOS; RELIABILITY; DEPLOYMENT; INTERWORKING;
   MIGRATION; TROUBLESHOOTING; COMPLIANCE; FEATURE; GENERAL].

(** Position of a member in the declaration. *)
Definition decl_index (t : QueryType) : nat :=
  match t with
  | PROCEDURE => 0 | ARCHITECTURE => 1 | PROTOCOL => 2 | INTERFACE => 3
  | SECURITY => 4 | PERFORMANCE => 5 | QOS => 6 | RELIABILITY => 7
  | DEPLOYMENT => 8 | INTERWORKING => 9 | MIGRATION => 10
  | TROUBLESHOOTING => 11 | COMPLIANCE => 12 | FEATURE => 13
  | GENERAL => 14
  end.

(** [t.value] *)
Definition value (t : QueryType) : string :=
  match t with
  | PROCEDURE => "procedure" | ARCHITECTURE => "architecture"
  | PROTOCOL => "protocol" | INTERFACE => "interface"
  | SECURITY => "security" | PERFORMANCE => "performance"
  | QOS => "qos" | RELIABILITY => "reliability"
  | DEPLOYMENT => "deployment" | INTERWORKING => "interworking"
  | MIGRATION => "migration" | TROUBLESHOOTING => "troubleshooting"
  | COMPLIANCE => "compliance" | FEATURE => "feature"
  | GENERAL => "general"
  end.

(** [t.name] *)
Definition name (t : QueryType) : string :=
  match t with
  | PROCEDURE => "PROCEDURE" | ARCHITECTURE => "ARCHITECTURE"
  | PROTOCOL => "PROTOCOL" | INTERFACE => "INTERFACE"
  | SECURITY => "SECURITY" | PERFORMANCE => "PERFORMANCE"
  | QOS => "QOS" | RELIABILITY => "RELIABILITY"
  | DEPLOYMENT => "DEPLOYMENT" | INTERWORKING => "INTERWORKING"
  | MIGRATION => "MIGRATION" | TROUBLESHOOTING => "TROUBLESHOOTING"
  | COMPLIANCE => "COMPLIANCE" | FEATURE => "FEATURE"
  | GENERAL => "GENERAL"
  end.

(** [str(t)] of an [Enum] member: the class name, a dot, the member name. *)
Definition str (t : QueryType) : string := "QueryType." +:+ name t.

#[global] Instance QueryType_eq_dec : EqDecision QueryType.
Proof. solve_decision. Defined.

#[global] Instance QueryType_countable : Countable QueryType.
Proof.
  refine (inj_countable' decl_index
            (fun n => nth n QueryType_members GENERAL) _).
  intros []; reflexivity.
Defined.

(** The three keys of a keyword entry. *)
Inductive Priority : Set := high_priority | medium_priority | low_priority.

#[global] Instance Priority_eq_dec : EqDecision Priority.
Proof. solve_decision. Defined.

(** The tiers of one query type: priority to keyword list, in insertion
    order. *)
Abbreviation tiers := (list (Priority * list string)).

Definition entry (h m l : list string) : tiers :=
  [(high_priority, h); (medium_priority, m); (low_priority, l)].

Definition QUERY_KEYWORDS : list (QueryType * tiers) :=
  [ (PROCEDURE, entry
       ["procedure"; "process"; "flow"; "step"; "sequence"; "operation"]
       ["how to"; "when"; "trigger"; "initiate"; "handle"]
       ["do"; "perform"; "execute"]);
    (ARCHITECTURE, entry
       ["architecture"; "structure"; "framework"; "design"; "topology"]
       ["component"; "element"; "node"; "entity"; "function"]
       ["system"; "network"; "setup"]);
    (PROTOCOL, entry
       ["protocol"; "signaling"; "message"; "packet"; "format"]
       ["header"; "payload"; "encoding"; "decoding"; "stack"]
       ["communicate"; "exchange"; "transfer"]);
    (INTERFACE, entry
       ["interface"; "reference point"; "connection"; "link"]
       ["between"; "connects to"; "interconnection"]
       ["connect"; "communicate"]);
    (SECURITY, entry
       ["security"; "authentication"; "encryption"; "integrity"; "privacy"]
       ["protect"; "secure"; "cipher"; "key"; "credential"]
       ["safe"; "guard"; "threat"]);
    (PERFORMANCE, entry
       ["performance"; "throughput"; "latency"; "bandwidth"; "capacity"]
       ["speed"; "efficiency"; "optimization"; "metric"]
       ["fast"; "slow"; "measure"]);
    (QOS, entry
       ["qos"; "quality of service"; "priority"; "class"; "bearer"]
       ["traffic"; "flow"; "guarantee"; "requirement"]
       ["quality"; "service"]);
    (RELIABILITY, entry
       ["reliability"; "availability"; "redundancy"; "resilience"]
       ["failover"; "backup"; "recovery"; "robust"]
       ["stable"; "reliable"; "maintain"]);
    (DEPLOYMENT, entry
       ["deployment"; "installation"; "configuration"; "setup"]
       ["implement"; "roll out"; "provision"; "integrate"]
       ["deploy"; "install"; "configure"]);
    (INTERWORKING, entry
       ["interworking"; "interoperability"; "compatibility"; "integration"]
       ["interact"; "work together"; "coordinate"]
       ["between"; "with"]);
    (MIGRATION, entry
       ["migration"; "upgrade"; "transition"; "evolution"]
       ["move to"; "change"; "transform"]
       ["new"; "old"; "legacy"]);
    (TROUBLESHOOTING, entry
       ["troubleshoot"; "debug"; "diagnose"; "problem"; "issue"]
       ["error"; "fault"; "failure"; "fix"]
       ["wrong"; "fail"; "break"]);
    (COMPLIANCE, entry
       ["compliance"; "standard"; "regulation"; "requirement"]
       ["conform"; "adhere"; "follow"; "meet"]
       ["rule"; "guideline"; "specification"]);
    (FEATURE, entry
       ["feature"; "capability"; "functionality"; "service"]
       ["support"; "provide"; "enable"; "offer"]
       ["can"; "able"; "function"]) ].

(** The context templates, character for character. *)
Definition SPECIALIZED_CONTEXTS : list (QueryType * string) :=
  [
    (PROCEDURE, "
        For procedure-related queries:
        - Provide a clear step-by-step breakdown
        - Include sequence diagrams if relevant
        - List all involved network elements
        - Detail message flows and parameters
        - Specify preconditions and postconditions
        - Highlight potential error scenarios
        - Reference relevant 3GPP specifications (TS documents)
        ");

    (ARCHITECTURE, "
        For architecture-related queries:
        - Describe overall architecture structure
        - Detail component roles and responsibilities
        - Explain interfaces and reference points
        - Discuss deployment considerations
        - Include scalability aspects
        - Mention virtualization options
        - Reference relevant 3GPP specifications
        ");

    (PROTOCOL, "
        For protocol-related queries:
        - Explain protocol stack placement
        - Detail message formats and fields
        - Describe state machines
        - List supported procedures
        - Include protocol parameters
        - Discuss protocol extensions
        - Reference relevant 3GPP specifications
        ");

    (INTERFACE, "
        For interface-related queries:
        - Define connected network elements
        - List supported protocols
        - Detail interface requirements
        - Explain message flows
        - Describe interface configuration
        - Include performance aspects
        - Reference relevant 3GPP specifications
        ");

    (SECURITY, "
        For security-related queries:
        - Explain security mechanisms
        - Detail key management
        - Describe authentication flows
        - List security features
        - Include threat mitigations
        - Discuss privacy aspects
        - Reference relevant 3GPP specifications
        ");

    (PERFORMANCE, "
        For performance-related queries:
        - List key performance indicators
        - Provide measurement methods
        - Include benchmark data
        - Detail optimization options
        - Discuss scaling factors
        - Explain monitoring approaches
        - Reference relevant 3GPP specifications
        ");

    (QOS, "
        For QoS-related queries:
        - Define QoS parameters
        - Explain QoS flows
        - Detail QoS handling
        - List QoS classes
        - Include mapping rules
        - Discuss enforcement methods
        - Reference relevant 3GPP specifications
        ");

    (RELIABILITY, "
        For reliability-related queries:
        - Explain redundancy mechanisms
        - Detail failover procedures
        - Describe recovery methods
        - List availability features
        - Include monitoring aspects
        - Discuss SLA considerations
        - Reference relevant 3GPP specifications
        ");

    (DEPLOYMENT, "
        For deployment-related queries:
        - Provide deployment options
        - List prerequisites
        - Detail configuration steps
        - Include best practices
        - Discuss scaling aspects
        - Explain maintenance procedures
        - Reference relevant 3GPP specifications
        ");

    (INTERWORKING, "
        For interworking-related queries:
        - Explain interworking mechanisms
        - Detail protocol conversions
        - List supported features
        - Include limitations
        - Discuss compatibility aspects
        - Describe roaming scenarios
        - Reference relevant 3GPP specifications
        ");

    (MIGRATION, "
        For migration-related queries:
        - Provide migration paths
        - Detail upgrade steps
        - List compatibility issues
        - Include rollback procedures
        - Discuss impact analysis
        - Explain testing approaches
        - Reference relevant 3GPP specifications
        ");

    (TROUBLESHOOTING, "
        For troubleshooting-related queries:
        - List common issues
        - Provide diagnostic steps
        - Detail resolution procedures
        - Include logging aspects
        - Discuss prevention methods
        - Explain monitoring tools
        - Reference relevant 3GPP specifications
        ");

    (COMPLIANCE, "
        For compliance-related queries:
        - List applicable standards
        - Detail requirements
        - Explain conformance testing
        - Include certification aspects
        - Discuss validation methods
        - Provide compliance checklist
        - Reference relevant 3GPP specifications
        ");

    (FEATURE, "
        For feature-related queries:
        - Explain feature capabilities
        - Detail configuration options
        - List dependencies
        - Include limitations
        - Discuss use cases
        - Provide implementation guidance
        - Reference relevant 3GPP specifications
        ") ].

(** The literal that [generate_prompt] passes to [dict.get] as default. *)
Definition generic_context : string :=
  "Provide a clear, technical response with relevant 3GPP specification references.".

(** [weights[priority]] in [_calculate_confidence_score]. *)
Definition weights (p : Priority) : Q :=
  match p with
  | high_priority => 1
  | medium_priority => 6 # 10
  | low_priority => 3 # 10
  end.

(** A key of the [keywords_matched] dictionary. A Python dictionary takes
    any hashable object as a key; the two kinds that matter here are
    strings and members of [QueryType], and a member is never equal to a
    string. *)
Inductive Key : Set :=
  | StrKey (s : string)
  | EnumKey (t : QueryType).

#[global] Instance Key_eq_dec : EqDecision Key.
Proof. solve_decision. Defined.

Record QueryClassification : Type := mkQueryClassification {
  primary_type : QueryType;
  secondary_types : gset QueryType;
  confidence_score : Q;
  keywords_matched : list (Key * tiers)
}.

(** ** Insertion-ordered dictionaries *)

Section OrderedDict.
Context {K V : Type} `{EqDecision K}.

(** [k in d] / [d.get(k)] *)
Fixpoint dict_get (k : K) (d : list (K * V)) : option V :=
  match d with
  | [] => None
  | (k', v) :: d' => if decide (k = k') then Some v else dict_get k d'
  end.

(** [d[k] = v]: overwrite in place, or append a new key at the end. *)
Fixpoint dict_set (k : K) (v : V) (d : list (K * V)) : list (K * V) :=
  match d with
  | [] => [(k, v)]
  | (k', v') :: d' =>
      if decide (k = k') then (k', v) :: d'
      else (k', v') :: dict_set k v d'
  end.

(** Updating [d[k]] through [f] in a [defaultdict] whose factory returns
    [dflt]: a missing key is first created, at the end, with [dflt]. *)
Fixpoint dd_modify (dflt : V) (f : V -> V) (k : K) (d : list (K * V))
  : list (K * V) :=
  match d with
  | [] => [(k, f dflt)]
  | (k', v) :: d' =>
      if decide (k = k') then (k', f v) :: d'
      else (k', v) :: dd_modify dflt f k d'
  end.
End OrderedDict.

(** ** The classifier *)

(** [matches[query_type][priority].append(keyword)] on the
    [defaultdict(lambda: defaultdict(list))]. *)
Definition add_match (t : QueryType) (p : Priority) (kw : string)
    (matches : list (QueryType * tiers)) : list (QueryType * tiers) :=
  dd_modify [] (dd_modify [] (fun l => l ++ [kw]) p) t matches.

(** The innermost loop: [for keyword in keywords]. *)
Definition scan_keywords (query_lower : string) (t : QueryType)
    (p : Priority) (keywords : list string)
    (matches : list (QueryType * tiers)) : list (QueryType * tiers) :=
  fold_left
    (fun m kw => if contains kw query_lower then add_match t p kw m else m)
    keywords matches.

(** [for priority, keywords in priority_keywords.items()]. *)
Definition scan_priorities (query_lower : string) (t : QueryType)
    (priority_keywords : tiers)
    (matches : list (QueryType * tiers)) : list (QueryType * tiers) :=
  fold_left
    (fun m pk => scan_keywords query_lower t pk.1 pk.2 m)
    priority_keywords matches.

(** The loops of [_calculate_keyword_matches] over an arbitrary table. *)
Definition scan_table (query_lower : string)
    (table : list (QueryType * tiers)) : list (QueryType * tiers) :=
  fold_left
    (fun m tp => scan_priorities query_lower tp.1 tp.2 m)
    table [].

Definition _calculate_keyword_matches (query : string)
    : list (QueryType * tiers) :=
  let query_lower := lower query in
  scan_table query_lower QUERY_KEYWORDS.

(** [min(score, 1.0)]: the second argument only when it is strictly
    smaller. *)
Definition min_score (score one : Q) : Q :=
  if Qle_bool score one then score else one.

Definition _calculate_confidence_score (matches : tiers) : Q :=
  let score :=
    fold_left
      (fun score pk =>
         (score + inject_Z (Z.of_nat (length pk.2)) * weights pk.1)%Q)
      matches 0%Q in
  min_score score 1.

(** [a > b] on scores. *)
Definition Qgtb (a b : Q) : bool := negb (Qle_bool a b).

(** [sorted(items, key=lambda x: x[1], reverse=True)]: the sort is stable,
    so among equal scores the earlier item stays first. [insert_desc] puts
    an item in front of a list that is already sorted and whose items all
    came after it. *)
Fixpoint insert_desc {A} (x : A * Q) (l : list (A * Q)) : list (A * Q) :=
  match l with
  | [] => [x]
  | y :: l' =>
      if Qle_bool y.2 x.2 then x :: y :: l'
      else y :: insert_desc x l'
  end.

Definition sorted_desc {A} (l : list (A * Q)) : list (A * Q) :=
  foldr insert_desc [] l.

(** The loop that fills [type_scores]. *)
Definition type_scores_of (keyword_matches : list (QueryType * tiers))
    : list (QueryType * Q) :=
  fold_left
    (fun type_scores tm =>
       let confidence := _calculate_confidence_score tm.2 in
       if Qgtb confidence 0%Q then dict_set tm.1 confidence type_scores
       else type_scores)
    keyword_matches [].

(** [{str(k): dict(v) for k, v in keyword_matches.items() if v}] *)
Definition keywords_matched_of (keyword_matches : list (QueryType * tiers))
    : list (Key * tiers) :=
  fold_left
    (fun d kv =>
       match kv.2 with
       | [] => d
       | _ :: _ => dict_set (StrKey (str kv.1)) kv.2 d
       end)
    keyword_matches [].

(** The classification returned when nothing matched. *)
Definition fallback : QueryClassification :=
  {| primary_type := GENERAL;
     secondary_types := ∅;
     confidence_score := 0%Q;
     keywords_matched := [] |}.

Definition _classify_query (query : string) : QueryClassification :=
  let keyword_matches := _calculate_keyword_matches query in
  let type_scores := type_scores_of keyword_matches in
  match type_scores with
  | [] => fallback
  | ts0 :: _ =>
      let sorted_types := sorted_desc type_scores in
      (* [sorted_types[0]]: the sort keeps the length, so the index is
         in range and the default is never taken. *)
      let first := nth 0 sorted_types ts0 in
      {| primary_type := first.1;
         secondary_types :=
           list_to_set
             (map fst
                (List.filter (fun ts => Qgtb ts.2 (3 # 10))
                   (slice 1 (length sorted_types) sorted_types)));
         confidence_score := first.2;
         keywords_matched := keywords_matched_of keyword_matches |}
  end.

(** ** The prompt composer *)

(** The order in which a [for] loop visits a Python [set]. CPython hashes
    an [Enum] member by the hash of its name, and the hash of a [str] is
    salted anew for every process, so the language fixes only that each
    member is visited once. *)
Record SetOrder : Type := mkSetOrder {
  visit : gset QueryType -> list QueryType;
  visit_perm : forall s, visit s ≡ₚ elements s
}.

(** Rounding to the nearest integer, ties to the even one. *)
Definition round_half_even (x : Q) : Z :=
  let d := Zpos (Qden x) in
  let q := (Qnum x / d)%Z in
  let r := (Qnum x mod d)%Z in
  match (2 * r ?= d)%Z with
  | Lt => q
  | Gt => (q + 1)%Z
  | Eq => if Z.even q then q else (q + 1)%Z
  end.

Definition digit_char (n : N) : ascii := ascii_of_N (48 + n).

(** [f"{x:.2f}"]: sign, integer part, a dot, two decimals. *)
Definition format_2f (x : Q) : string :=
  let c := Z.to_N (round_half_even (Qabs x * 100)) in
  (if Qle_bool 0 x then "" else "-")
  +:+ pretty (c / 100)%N
  +:+ "."
  +:+ String (digit_char (c mod 100 / 10)) (String (digit_char (c mod 10)) "").

Section Composer.
Variable contexts : list (QueryType * string).
Variable order : SetOrder.

(** The loop that collects [secondary_contexts]. *)
Definition secondary_contexts_of (secondary : list QueryType)
    : list string :=
  fold_left
    (fun secondary_contexts secondary_type =>
       match dict_get secondary_type contexts with
       | Some context =>
           let context_lines := split newline context in
           secondary_contexts ++ slice 1 4 context_lines
       | None => secondary_contexts
       end)
    secondary [].

(** The body of [generate_prompt] after the classification. *)
Definition compose (user_query : string)
    (classification : QueryClassification) : string :=
  let primary_context :=
    default generic_context
      (dict_get (primary_type classification) contexts) in
  let secondary_contexts :=
    secondary_contexts_of (visit order (secondary_types classification)) in
  fstring
    [ "
        Primary Focus - "; value (primary_type classification); ":
        "; primary_context; "
        
        "; match secondary_contexts with
         | [] => ""
         | _ :: _ => "Additional Considerations:"
         end; "
        "; join nl secondary_contexts; "
        
        Query Classification Confidence: ";
      format_2f (confidence_score classification); "
        
        User Query: "; user_query; "
        
        Response Guidelines:
        1. Start with a clear overview
        2. Focus on "; value (primary_type classification); "-related aspects
        3. Include relevant 3GPP specification references
        4. Provide practical examples where applicable
        5. Consider interdependencies with ";
      (if decide (secondary_types classification = ∅) then "other aspects"
       else join ", "
              (map value (visit order (secondary_types classification))));
      "
        6. Conclude with key takeaways and considerations
        " ].
End Composer.

Definition generate_prompt (order : SetOrder) (user_query : string)
    : string :=
  let classification := _classify_query user_query in
  compose SPECIALIZED_CONTEXTS order user_query classification.

(** Two visiting orders a run may exhibit. *)
Definition hash_order_a : SetOrder :=
  {| visit := elements; visit_perm := fun s => reflexivity (elements s) |}.


(** ** Specification-side notions

    The definitions below say in closed form what the loops above compute;
    the lemmas that follow relate the two. *)

(** The keywords of a list that occur in the lowercased query, in the
    order of the list. *)
Definition hits (query_lower : string) (keywords : list string)
    : list string :=
  List.filter (fun kw => contains kw query_lower) keywords.

(** A dictionary entry that exists only when its value is not empty. *)
Definition present {K A} (k : K) (v : list A) : list (K * list A) :=
  match v with
  | [] => []
  | _ :: _ => [(k, v)]
  end.

(** The tiers of a type that have a hit, each with its hits. *)
Definition tier_matches (query_lower : string) (priority_keywords : tiers)
    : tiers :=
  flat_map (fun pk => present pk.1 (hits query_lower pk.2)) priority_keywords.

(** The types of a table that have a hit, each with its tiers. *)
Definition table_matches (query_lower : string)
    (table : list (QueryType * tiers)) : list (QueryType * tiers) :=
  flat_map (fun tp => present tp.1 (tier_matches query_lower tp.2)) table.

(** A table is well formed when no key is repeated, at either level. *)
Definition table_wf (table : list (QueryType * tiers)) : Prop :=
  NoDup table.*1 /\ Forall (fun tp => NoDup tp.2.*1) table.

(** The scores the classifier works with: [type_scores] in
    [_classify_query]. *)
Definition type_scores (query : string) : list (QueryType * Q) :=
  type_scores_of (_calculate_keyword_matches query).

(** The weighted count of a type's keywords that occur in the query. *)
Definition weighted_sum (query_lower : string) (priority_keywords : tiers)
    : Q :=
  foldr
    (fun pk acc =>
       (weights pk.1 * inject_Z (Z.of_nat (length (hits query_lower pk.2)))
        + acc)%Q)
    0%Q priority_keywords.

(** No keyword of the table occurs in the lowercased query. *)
Definition no_keyword_matches (query : string) : bool :=
  forallb
    (fun tp =>
       forallb
         (fun pk => forallb (fun kw => negb (contains kw (lower query))) pk.2)
         tp.2)
    QUERY_KEYWORDS.

(** Some keyword of one type's tiers occurs in the lowercased query. *)
Definition has_match (query_lower : string) (priority_keywords : tiers)
    : bool :=
  existsb
    (fun pk => existsb (fun kw => contains kw query_lower) pk.2)
    priority_keywords.

(** Two strings that differ at most in the case of their letters. *)
Inductive case_variant : string -> string -> Prop :=
  | cv_empty : case_variant EmptyString EmptyString
  | cv_char c c' s s' :
      lower_char c = lower_char c' ->
      case_variant s s' ->
      case_variant (String c s) (String c' s').

(** The sum that [_calculate_confidence_score] accumulates. *)
Definition tier_sum (d : tiers) : Q :=
  foldr
    (fun pk acc => (weights pk.1 * inject_Z (Z.of_nat (length pk.2)) + acc)%Q)
    0%Q d.

(** Every tier of [d] lists at least one keyword. *)
Definition tiers_nonempty (d : tiers) : Prop :=
  Forall (fun pk => pk.2 <> []) d.

(** Declared earlier in the enumeration. *)
Definition decl_lt (a b : QueryType) : Prop := decl_index a < decl_index b.

(** The matches with their scores. *)
Definition scored (m : list (QueryType * tiers)) : list (QueryType * Q) :=
  map (fun tm => (tm.1, _calculate_confidence_score tm.2)) m.

(** Descending order of score. *)
Definition score_ge {A} (a b : A * Q) : Prop := (b.2 <= a.2)%Q.

(** The set built from the items after the first that pass the 0.3
    threshold. *)
Definition secondary_of (rest : list (QueryType * Q)) : gset QueryType :=
  list_to_set (map fst (List.filter (fun ts => Qgtb ts.2 (3 # 10)) rest)).

(** The matches under the names of their types. *)
Definition keyed (m : list (QueryType * tiers)) : list (Key * tiers) :=
  map (fun kv => (StrKey (str kv.1), kv.2)) m.

(** The eight blanks that start every line of a template and of the
    prompt. *)
Definition indent : string := "        ".


(** What one secondary type contributes to [secondary_contexts]. *)
Definition excerpt_of (contexts : list (QueryType * string))
    (t : QueryType) : list string :=
  match dict_get t contexts with
  | Some context => slice 1 4 (split newline context)
  | None => []
  end.

(** The topic a built-in template names in its header line. *)
Definition topic (t : QueryType) : string :=
  match t with
  | QOS => "QoS"
  | _ => value t
  end.

Definition header_line (t : QueryType) : string :=
  indent +:+ "For " +:+ topic t +:+ "-related queries:".

(** The specification reads a template as its header line followed by
    its bullet lines and takes lines 2 to 4 of that text. *)
Definition blank (s : string) : bool :=
  forallb (fun a => bool_decide (a = " "%char)) (list_ascii_of_string s).

Definition text_lines (context : string) : list string :=
  List.filter (fun l => negb (blank l)) (split newline context).

Definition excerpt_skipping_header (context : string) : list string :=
  slice 1 4 (text_lines context).

(** ** Binary64 scores

    The interpreter computes the scores in IEEE binary64, where 0.6 and
    0.3 are not exact and 0.6 + 0.3 is 0.8999999999999999. The definitions
    below redo [_calculate_confidence_score] on primitive floats; the
    lemmas check that on every tier dictionary the keyword table can give
    rise to, every comparison the classifier makes and the two printed
    decimals come out the same as with exact rationals. *)

Definition float_weights (p : Priority) : float :=
  match p with
  | high_priority => 1
  | medium_priority => 0x1.3333333333333p-1
  | low_priority => 0x1.3333333333333p-2
  end.

Definition float_of_nat (n : nat) : float :=
  PrimFloat.of_uint63 (Uint63.of_Z (Z.of_nat n)).

Definition float_confidence_score (matches : tiers) : float :=
  let score :=
    fold_left
      (fun score pk =>
         (score + float_of_nat (length pk.2) * float_weights pk.1)%float)
      matches 0%float in
  if PrimFloat.ltb 1 score then 1%float else score.

(** The rational a finite float stands for. *)
Definition float_value (f : float) : Q :=
  match Prim2SF f with
  | S754_finite s m e =>
      ((if s then -1 else 1) * inject_Z (Z.pos m) * Qpower 2 e)%Q
  | _ => 0%Q
  end.

(** What a score depends on: the tiers present and how many keywords each
    holds. *)
Definition shape (d : tiers) : list (Priority * nat) :=
  map (fun pk => (pk.1, length pk.2)) d.

(** A tier dictionary with the given numbers of hits. *)
Definition tiers_with (h m l : nat) : tiers :=
  present high_priority (replicate h "")
  ++ present medium_priority (replicate m "")
  ++ present low_priority (replicate l "").

(** The tier dictionaries within the sizes of the table: at most six
    high, five medium and three low keywords. *)
Definition reachable_tiers : list tiers :=
  h ← seq 0 7; m ← seq 0 6; l ← seq 0 4; [tiers_with h m l].

(** The tests of [_classify_query] on one score and the printed
    confidence, in binary64 and in exact arithmetic. *)
Definition score_agrees (d : tiers) : bool :=
  bool_decide
    (PrimFloat.ltb 0 (float_confidence_score d)
     = Qgtb (_calculate_confidence_score d) 0)
  && bool_decide
       (PrimFloat.ltb 0x1.3333333333333p-2 (float_confidence_score d)
        = Qgtb (_calculate_confidence_score d) (3 # 10))
  && bool_decide
       (format_2f (float_value (float_confidence_score d))
        = format_2f (_calculate_confidence_score d)).

(** The comparisons of two scores that sorting makes. *)
Definition order_agrees (d d' : tiers) : bool :=
  bool_decide
    (PrimFloat.ltb (float_confidence_score d) (float_confidence_score d')
     = Qgtb (_calculate_confidence_score d') (_calculate_confidence_score d))
  && bool_decide
       (PrimFloat.leb (float_confidence_score d) (float_confidence_score d')
        = Qle_bool (_calculate_confidence_score d)
            (_calculate_confidence_score d')).

(** ** Further notions *)

(** [matches[t][p]] read off the result of [_calculate_keyword_matches]: the
    keywords recorded for a type and a tier, none when there is no entry. *)
Definition recorded (query : string) (t : QueryType) (p : Priority)
    : list string :=
  match dict_get t (_calculate_keyword_matches query) with
  | Some d => default [] (dict_get p d)
  | None => []
  end.

(** The score of a type in a query, 0 for a type that is not a candidate. *)
Definition score_of (query : string) (t : QueryType) : Q :=
  default 0%Q (dict_get t (type_scores query)).

(** [kw] occurs in [s]: some text, [kw], some more text. *)
Definition occurs_in (kw s : string) : Prop :=
  exists pre post, s = pre +:+ kw +:+ post.

(** The five texts a confidence can be printed as. *)
Definition confidence_texts : list string :=
  ["0.00"; "0.30"; "0.60"; "0.90"; "1.00"].

(** The score of a tier dictionary is printed as one of the five texts:
    the check that is run on every reachable dictionary. *)
Definition prints_known_text (d : tiers) : bool :=
  bool_decide (format_2f (_calculate_confidence_score d) ∈ confidence_texts).

(** ** Insertion-ordered dictionaries: lemmas *)

Section OrderedDictFacts.
Context {K V : Type} `{EqDecision K}.
Implicit Types (d : list (K * V)) (k : K) (v : V).

Lemma dict_get_app_notin k d d' :
  k ∉ d.*1 -> dict_get k (d ++ d') = dict_get k d'.
Proof.
  induction d as [|[k' v'] d IH]; simpl; [done|].
  intros Hk. apply not_elem_of_cons in Hk as [Hne Hk].
  destruct (decide (k = k')); [done|]. by apply IH.
Qed.

Lemma dict_get_Some_elem k v d : dict_get k d = Some v -> (k, v) ∈ d.
Proof.
  induction d as [|[k' v'] d IH]; simpl; [done|].
  destruct (decide (k = k')) as [->|].
  - intros [= ->]. left.
  - intros. right. by apply IH.
Qed.

Lemma dict_get_None k d : dict_get k d = None <-> k ∉ d.*1.
Proof.
  induction d as [|[k' v'] d IH]; simpl.
  - split; [intros _; apply not_elem_of_nil|done].
  - rewrite not_elem_of_cons. destruct (decide (k = k')) as [->|Hne].
    + split; [done|]. by intros [? _].
    + rewrite IH. split; [done|]. by intros [_ ?].
Qed.

Lemma dict_get_elem k v d : NoDup d.*1 -> (k, v) ∈ d -> dict_get k d = Some v.
Proof.
  induction d as [|[k' v'] d IH]; simpl.
  - intros _ Hin. by apply elem_of_nil in Hin.
  - intros Hnd Hin. apply NoDup_cons in Hnd as [Hk' Hnd].
    apply elem_of_cons in Hin as [[= -> ->]|Hin].
    + by rewrite decide_True.
    + rewrite decide_False; [by apply IH|].
      intros ->. apply Hk'. apply list_elem_of_fmap. by exists (k', v).
Qed.

Lemma dict_set_notin k v d : k ∉ d.*1 -> dict_set k v d = d ++ [(k, v)].
Proof.
  induction d as [|[k' v'] d IH]; simpl; [done|].
  intros Hk. apply not_elem_of_cons in Hk as [Hne Hk].
  rewrite decide_False by done. by rewrite IH.
Qed.

Lemma dd_modify_app_notin dflt f k d d' :
  k ∉ d.*1 -> dd_modify dflt f k (d ++ d') = d ++ dd_modify dflt f k d'.
Proof.
  induction d as [|[k' v'] d IH]; simpl; [done|].
  intros Hk. apply not_elem_of_cons in Hk as [Hne Hk].
  rewrite decide_False by done. by rewrite IH.
Qed.
End OrderedDictFacts.

(** ** What the scanning loops compute *)

Lemma present_keys {K A} (k : K) (v : list A) k' :
  k' ∈ (present k v).*1 -> k' = k.
Proof.
  destruct v; simpl; intros Hin.
  - by apply elem_of_nil in Hin.
  - by apply list_elem_of_singleton in Hin.
Qed.

Lemma present_snoc {K A} (k : K) (v : list A) (x : A) :
  present k (v ++ [x]) = [(k, v ++ [x])].
Proof. by destruct v. Qed.

Lemma dd_modify_present {K A} `{EqDecision K} (f : list A -> list A)
    (k : K) (v : list A) :
  dd_modify [] f k (present k v) = [(k, f v)].
Proof. destruct v; simpl; [done|]. by rewrite decide_True. Qed.

Section Scan.
Variable query_lower : string.
Implicit Types (m : list (QueryType * tiers)) (d : tiers).

(** One recorded match, seen on the entry of the type being scanned. *)
Lemma add_match_spec t p kw m d l :
  t ∉ m.*1 -> p ∉ d.*1 ->
  add_match t p kw (m ++ present t (d ++ present p l))
  = m ++ present t (d ++ present p (l ++ [kw])).
Proof.
  intros Ht Hp. unfold add_match.
  rewrite dd_modify_app_notin, dd_modify_present by done.
  rewrite dd_modify_app_notin, dd_modify_present, present_snoc by done.
  by destruct d.
Qed.

Lemma scan_keywords_spec t p keywords m d l :
  t ∉ m.*1 -> p ∉ d.*1 ->
  scan_keywords query_lower t p keywords
    (m ++ present t (d ++ present p l))
  = m ++ present t (d ++ present p (l ++ hits query_lower keywords)).
Proof.
  intros Ht Hp. revert l.
  induction keywords as [|kw kws IH]; intros l; simpl.
  - by rewrite app_nil_r.
  - unfold scan_keywords in *. simpl.
    destruct (contains kw query_lower).
    + rewrite add_match_spec, IH by done. by rewrite <- app_assoc.
    + apply IH.
Qed.

Lemma scan_priorities_spec t priority_keywords m d :
  t ∉ m.*1 ->
  NoDup priority_keywords.*1 ->
  (forall p, p ∈ priority_keywords.*1 -> p ∉ d.*1) ->
  scan_priorities query_lower t priority_keywords (m ++ present t d)
  = m ++ present t (d ++ tier_matches query_lower priority_keywords).
Proof.
  intros Ht. revert d.
  induction priority_keywords as [|[p kws] pks IH]; intros d Hnd Hd; simpl.
  - by rewrite app_nil_r.
  - apply NoDup_cons in Hnd as [Hp Hnd].
    unfold scan_priorities in *. simpl.
    pose proof (scan_keywords_spec t p kws m d [] Ht) as Hk.
    simpl in Hk. rewrite app_nil_r in Hk.
    rewrite Hk by (apply Hd; left).
    rewrite IH; [by rewrite <- app_assoc|done|].
    intros p' Hp'. rewrite fmap_app. intros Hin.
    apply elem_of_app in Hin as [Hin|Hin].
    + revert Hin. apply Hd. by right.
    + apply present_keys in Hin as ->. done.
Qed.

Lemma table_matches_keys table t :
  t ∈ (table_matches query_lower table).*1 -> t ∈ table.*1.
Proof.
  induction table as [|[t' pks] table IH]; simpl; [done|].
  unfold table_matches in *. simpl. rewrite fmap_app.
  intros Hin. apply elem_of_app in Hin as [Hin|Hin].
  - apply present_keys in Hin as ->. left.
  - right. by apply IH.
Qed.

Lemma scan_table_from table m :
  NoDup table.*1 -> Forall (fun tp => NoDup tp.2.*1) table ->
  (forall t, t ∈ table.*1 -> t ∉ m.*1) ->
  fold_left (fun m tp => scan_priorities query_lower tp.1 tp.2 m) table m
  = m ++ table_matches query_lower table.
Proof.
  revert m.
  induction table as [|[t pks] table IH]; intros m Hnd Hwf Hm; simpl.
  - by rewrite app_nil_r.
  - apply NoDup_cons in Hnd as [Ht Hnd].
    apply Forall_cons in Hwf as [Hpks Hwf].
    pose proof (scan_priorities_spec t pks m [] (Hm t ltac:(left)) Hpks)
      as Hp.
    simpl in Hp. rewrite app_nil_r in Hp.
    rewrite Hp by (intros; apply not_elem_of_nil).
    rewrite IH; [by rewrite <- app_assoc|done|done|].
    intros t' Ht'. rewrite fmap_app. intros Hin.
    apply elem_of_app in Hin as [Hin|Hin].
    + revert Hin. apply Hm. by right.
    + apply present_keys in Hin as ->. done.
Qed.

(** The three nested loops record, for every type of the table with a
    hit and in table order, the tiers with a hit and their hits. *)
Lemma scan_table_spec table :
  table_wf table ->
  scan_table query_lower table = table_matches query_lower table.
Proof.
  intros [Hnd Hwf]. unfold scan_table.
  rewrite scan_table_from; [done..|].
  intros; apply not_elem_of_nil.
Qed.
End Scan.

Lemma QUERY_KEYWORDS_wf : table_wf QUERY_KEYWORDS.
Proof.
  split.
  - apply (bool_decide_unpack _). by vm_compute.
  - apply (bool_decide_unpack _). by vm_compute.
Qed.

Lemma keyword_matches_spec query :
  _calculate_keyword_matches query
  = table_matches (lower query) QUERY_KEYWORDS.
Proof. apply scan_table_spec, QUERY_KEYWORDS_wf. Qed.

(** ** Scores *)

Lemma weights_ge p : (3 # 10 <= weights p)%Q.
Proof. destruct p; simpl; lra. Qed.

Lemma inject_length_nonneg {A} (l : list A) :
  (0 <= inject_Z (Z.of_nat (length l)))%Q.
Proof.
  change 0%Q with (inject_Z 0). rewrite <- Zle_Qle. apply Nat2Z.is_nonneg.
Qed.

Lemma inject_length_pos {A} (l : list A) :
  l <> [] -> (1 <= inject_Z (Z.of_nat (length l)))%Q.
Proof.
  intros Hl. change 1%Q with (inject_Z 1). rewrite <- Zle_Qle.
  destruct l; [done|]. simpl length. lia.
Qed.

Lemma score_loop_sum (d : tiers) (a : Q) :
  (fold_left
     (fun score pk =>
        (score + inject_Z (Z.of_nat (length pk.2)) * weights pk.1)%Q)
     d a == a + tier_sum d)%Q.
Proof.
  revert a. induction d as [|pk d IH]; intros a; simpl.
  - ring.
  - rewrite IH. ring.
Qed.

Lemma min_score_Qmin (s one : Q) : (min_score s one == Qmin one s)%Q.
Proof.
  unfold min_score. destruct (Qle_bool s one) eqn:Hle.
  - apply Qle_bool_iff in Hle. symmetry. by apply Q.min_r.
  - symmetry. apply Q.min_l. apply Qlt_le_weak, Qnot_le_lt.
    intros Hle'. apply Qle_bool_iff in Hle'. congruence.
Qed.

Lemma confidence_score_spec (d : tiers) :
  (_calculate_confidence_score d == Qmin 1 (tier_sum d))%Q.
Proof.
  unfold _calculate_confidence_score. rewrite min_score_Qmin.
  apply Q.min_compat; [reflexivity|]. rewrite score_loop_sum. ring.
Qed.

Lemma tier_sum_nonneg (d : tiers) : (0 <= tier_sum d)%Q.
Proof.
  induction d as [|pk d IH]; simpl; [lra|].
  pose proof (weights_ge pk.1). pose proof (inject_length_nonneg pk.2). nra.
Qed.

Lemma tier_sum_pos (d : tiers) :
  d <> [] -> tiers_nonempty d -> (3 # 10 <= tier_sum d)%Q.
Proof.
  destruct d as [|pk d]; [done|]. intros _ Hne.
  apply Forall_cons in Hne as [Hpk _]. simpl.
  pose proof (weights_ge pk.1). pose proof (inject_length_pos pk.2 Hpk).
  pose proof (tier_sum_nonneg d). nra.
Qed.

Lemma confidence_score_range (d : tiers) :
  (0 <= _calculate_confidence_score d <= 1)%Q.
Proof.
  rewrite confidence_score_spec. split.
  - apply Q.min_glb; [lra|apply tier_sum_nonneg].
  - apply Q.le_min_l.
Qed.

Lemma confidence_score_pos (d : tiers) :
  d <> [] -> tiers_nonempty d -> (3 # 10 <= _calculate_confidence_score d)%Q.
Proof.
  intros Hd Hne. rewrite confidence_score_spec.
  apply Q.min_glb; [lra|by apply tier_sum_pos].
Qed.

Lemma Qgtb_true (a b : Q) : Qgtb a b = true <-> (b < a)%Q.
Proof.
  unfold Qgtb. rewrite negb_true_iff. split.
  - intros Hle. apply Qnot_le_lt. intros Hle'.
    apply Qle_bool_iff in Hle'. congruence.
  - intros Hlt. destruct (Qle_bool a b) eqn:Hle; [|done].
    apply Qle_bool_iff in Hle. lra.
Qed.

(** The tiers recorded for a type are never empty lists, and they add up
    to the weighted count of the type's matched keywords. *)
Lemma tier_matches_nonempty query_lower pks :
  tiers_nonempty (tier_matches query_lower pks).
Proof.
  unfold tiers_nonempty, tier_matches.
  induction pks as [|[p kws] pks IH]; simpl; [constructor|].
  apply Forall_app; split; [|done].
  destruct (hits query_lower kws) eqn:Hh; simpl; [constructor|].
  by repeat constructor.
Qed.

Lemma tier_matches_sum query_lower pks :
  (tier_sum (tier_matches query_lower pks) == weighted_sum query_lower pks)%Q.
Proof.
  unfold tier_matches.
  induction pks as [|[p kws] pks IH]; simpl; [reflexivity|].
  destruct (hits query_lower kws) eqn:Hh; simpl.
  - rewrite IH. ring.
  - rewrite IH. reflexivity.
Qed.

Lemma present_elem {K A} (k : K) (v : list A) x :
  x ∈ present k v <-> x = (k, v) /\ v <> [].
Proof.
  destruct v; simpl.
  - rewrite elem_of_nil. split; [done|]. by intros [_ ?].
  - rewrite list_elem_of_singleton. split; [done|]. by intros [? _].
Qed.

Lemma elem_of_flat_map {A B} (f : A -> list B) (l : list A) (y : B) :
  y ∈ flat_map f l <-> exists x, x ∈ l /\ y ∈ f x.
Proof.
  induction l as [|x l IH]; simpl.
  - rewrite elem_of_nil. split; [done|]. intros (x & Hx & _).
    by apply elem_of_nil in Hx.
  - rewrite elem_of_app, IH. split.
    + intros [Hy|(x' & Hx' & Hy)].
      * exists x. split; [left|done].
      * exists x'. split; [by right|done].
    + intros (x' & Hx' & Hy). apply elem_of_cons in Hx' as [->|Hx'].
      * by left.
      * right. by exists x'.
Qed.

Lemma table_matches_elem query_lower table t d :
  (t, d) ∈ table_matches query_lower table <->
  exists pks, (t, pks) ∈ table /\ d = tier_matches query_lower pks /\ d <> [].
Proof.
  unfold table_matches. rewrite elem_of_flat_map. split.
  - intros [[t' pks] [Htp Hin]]. apply present_elem in Hin as [[= -> ->] Hne].
    by exists pks.
  - intros (pks & Hin & -> & Hne). exists (t, pks). split; [done|].
    by apply present_elem.
Qed.

Lemma table_matches_sorted query_lower table :
  StronglySorted decl_lt table.*1 ->
  StronglySorted decl_lt (table_matches query_lower table).*1.
Proof.
  unfold table_matches.
  induction table as [|[t pks] table IH]; simpl; [constructor|].
  intros Hs. apply StronglySorted_inv in Hs as [Hs Ht].
  rewrite fmap_app. apply StronglySorted_app_2; [|by destruct (tier_matches _ _); repeat constructor|by apply IH].
  intros x1 x2 Hx1 Hx2. apply present_keys in Hx1 as ->.
  apply table_matches_keys in Hx2.
  rewrite Forall_forall in Ht. by apply Ht.
Qed.

Lemma decl_sorted_NoDup (l : list QueryType) :
  StronglySorted decl_lt l -> NoDup l.
Proof.
  induction 1 as [|t l Hs IH Ht]; constructor; [|done].
  intros Hin. rewrite Forall_forall in Ht. specialize (Ht _ Hin).
  unfold decl_lt in Ht. lia.
Qed.

Lemma QUERY_KEYWORDS_sorted : StronglySorted decl_lt QUERY_KEYWORDS.*1.
Proof.
  simpl. repeat (apply SSorted_cons; [|repeat constructor]).
  constructor.
Qed.

(** The keys of the keyword table are the members of the enumeration
    other than [GENERAL], in declaration order. *)
Lemma QUERY_KEYWORDS_keys :
  QUERY_KEYWORDS.*1 = take 14 QueryType_members.
Proof. reflexivity. Qed.

Lemma keyword_matches_sorted query :
  StronglySorted decl_lt (_calculate_keyword_matches query).*1.
Proof.
  rewrite keyword_matches_spec.
  apply table_matches_sorted, QUERY_KEYWORDS_sorted.
Qed.

(** ** The loop that fills [type_scores] *)

Lemma scored_keys m : (scored m).*1 = m.*1.
Proof. unfold scored. induction m as [|[??] ? IH]; simpl; by f_equal. Qed.

Lemma type_scores_of_from m acc :
  NoDup m.*1 ->
  Forall (fun tm => tm.2 <> [] /\ tiers_nonempty tm.2) m ->
  (forall t, t ∈ m.*1 -> t ∉ acc.*1) ->
  fold_left
    (fun type_scores tm =>
       let confidence := _calculate_confidence_score tm.2 in
       if Qgtb confidence 0%Q then dict_set tm.1 confidence type_scores
       else type_scores)
    m acc
  = acc ++ scored m.
Proof.
  revert acc. induction m as [|[t d] m IH]; intros acc Hnd Hne Hacc; simpl.
  - by rewrite app_nil_r.
  - apply NoDup_cons in Hnd as [Ht Hnd].
    apply Forall_cons in Hne as [[Hd Hdne] Hne]. simpl in Hd, Hdne.
    assert (Qgtb (_calculate_confidence_score d) 0 = true) as ->.
    { apply Qgtb_true. pose proof (confidence_score_pos d Hd Hdne). lra. }
    rewrite dict_set_notin by (apply Hacc; left).
    rewrite IH; [by rewrite <- app_assoc|done|done|].
    intros t' Ht'. rewrite fmap_app. intros Hin.
    apply elem_of_app in Hin as [Hin|Hin].
    + revert Hin. apply Hacc. by right.
    + apply list_elem_of_singleton in Hin as ->. done.
Qed.

Lemma keyword_matches_nonempty query :
  Forall (fun tm => tm.2 <> [] /\ tiers_nonempty tm.2)
    (_calculate_keyword_matches query).
Proof.
  rewrite keyword_matches_spec. apply Forall_forall. intros [t d] Hin.
  apply table_matches_elem in Hin as (pks & _ & -> & Hne).
  split; [done|apply tier_matches_nonempty].
Qed.

(** Every type with a recorded match gets a score, in the order of the
    matches: the guard [confidence > 0] never filters anything out. *)
Lemma type_scores_spec query :
  type_scores query = scored (_calculate_keyword_matches query).
Proof.
  unfold type_scores, type_scores_of.
  rewrite type_scores_of_from; [done| | |].
  - apply decl_sorted_NoDup, keyword_matches_sorted.
  - apply keyword_matches_nonempty.
  - intros; apply not_elem_of_nil.
Qed.

Lemma type_scores_sorted query :
  StronglySorted decl_lt (type_scores query).*1.
Proof.
  rewrite type_scores_spec, scored_keys. apply keyword_matches_sorted.
Qed.

Lemma type_scores_NoDup query : NoDup (type_scores query).*1.
Proof. apply decl_sorted_NoDup, type_scores_sorted. Qed.

(** ** The stable descending sort *)

Section Sorting.
Context {A : Type}.
Implicit Types (x h : A * Q) (l r : list (A * Q)).

Lemma insert_desc_perm x l : insert_desc x l ≡ₚ x :: l.
Proof.
  induction l as [|y l IH]; simpl; [done|].
  destruct (Qle_bool y.2 x.2); [done|].
  rewrite IH. apply Permutation_swap.
Qed.

Lemma sorted_desc_perm l : sorted_desc l ≡ₚ l.
Proof.
  induction l as [|x l IH]; simpl; [done|].
  by rewrite insert_desc_perm, IH.
Qed.

Lemma sorted_desc_length l : length (sorted_desc l) = length l.
Proof. apply Permutation_length, sorted_desc_perm. Qed.

Lemma insert_desc_sorted x l :
  StronglySorted score_ge l -> StronglySorted score_ge (insert_desc x l).
Proof.
  induction 1 as [|y l Hs IH Hy]; simpl; [by repeat constructor|].
  destruct (Qle_bool y.2 x.2) eqn:Hle.
  - apply Qle_bool_iff in Hle. constructor; [by constructor|].
    constructor; [done|].
    eapply Forall_impl; [exact Hy|]. unfold score_ge. intros z Hz.
    lra.
  - assert (x.2 < y.2)%Q as Hlt.
    { apply Qnot_le_lt. intros Hle'. apply Qle_bool_iff in Hle'.
      congruence. }
    constructor; [done|].
    rewrite insert_desc_perm.
    constructor; [|done]. unfold score_ge. lra.
Qed.

(** The result is in descending order of score. *)
Lemma sorted_desc_sorted l : StronglySorted score_ge (sorted_desc l).
Proof.
  induction l as [|x l IH]; simpl; [constructor|].
  by apply insert_desc_sorted.
Qed.

(** Stability, as far as the first item goes: the head of the sorted
    list is the first item of the input that has the greatest score. *)
Lemma sorted_desc_head l h r :
  sorted_desc l = h :: r ->
  exists l1 l2,
    l = l1 ++ h :: l2 /\
    Forall (fun x => (x.2 < h.2)%Q) l1 /\
    Forall (fun x => (x.2 <= h.2)%Q) l2.
Proof.
  revert h r. induction l as [|x l IH]; intros h r; simpl; [done|].
  destruct (sorted_desc l) as [|h' r'] eqn:Hs; simpl.
  - intros [= <- <-]. exists [], l. split; [done|].
    apply (f_equal length) in Hs. rewrite sorted_desc_length in Hs.
    destruct l; [|done]. by split; constructor.
  - destruct (IH h' r' eq_refl) as (l1 & l2 & -> & Hl1 & Hl2).
    destruct (Qle_bool h'.2 x.2) eqn:Hle.
    + apply Qle_bool_iff in Hle. intros [= <- <-].
      exists [], (l1 ++ h' :: l2). split; [done|]. split; [constructor|].
      apply Forall_app; split; [|constructor].
      * eapply Forall_impl; [exact Hl1|]. simpl. intros; lra.
      * done.
      * eapply Forall_impl; [exact Hl2|]. simpl. intros; lra.
    + assert (x.2 < h'.2)%Q as Hlt.
      { apply Qnot_le_lt. intros Hle'. apply Qle_bool_iff in Hle'.
        congruence. }
      intros [= <- <-]. exists (x :: l1), l2. split; [done|].
      split; [by constructor|done].
Qed.
End Sorting.

(** ** The shape of a classification *)

Lemma slice_tail {A} (x : A) (l : list A) :
  slice 1 (length (x :: l)) (x :: l) = l.
Proof.
  unfold slice. simpl. rewrite Nat.sub_0_r. apply firstn_all.
Qed.

Lemma classify_fallback query :
  type_scores query = [] -> _classify_query query = fallback.
Proof.
  unfold _classify_query. fold (type_scores query). by intros ->.
Qed.

Lemma classify_sorted query h r :
  sorted_desc (type_scores query) = h :: r ->
  _classify_query query =
  {| primary_type := h.1;
     secondary_types := secondary_of r;
     confidence_score := h.2;
     keywords_matched :=
       keywords_matched_of (_calculate_keyword_matches query) |}.
Proof.
  intros Hs. unfold _classify_query. fold (type_scores query).
  destruct (type_scores query) as [|ts0 ts] eqn:Hts; [done|].
  rewrite Hs. by rewrite slice_tail.
Qed.

(** Either nothing scored and the fallback is returned, or the fields are
    read off the sorted scores. *)
Lemma classify_cases query :
  (type_scores query = [] /\ _classify_query query = fallback) \/
  (exists h r l1 l2,
     sorted_desc (type_scores query) = h :: r /\
     type_scores query = l1 ++ h :: l2 /\
     Forall (fun x => (x.2 < h.2)%Q) l1 /\
     Forall (fun x => (x.2 <= h.2)%Q) l2 /\
     _classify_query query =
     {| primary_type := h.1;
        secondary_types := secondary_of r;
        confidence_score := h.2;
        keywords_matched :=
          keywords_matched_of (_calculate_keyword_matches query) |}).
Proof.
  destruct (sorted_desc (type_scores query)) as [|h r] eqn:Hs.
  - left. apply (f_equal length) in Hs. rewrite sorted_desc_length in Hs.
    destruct (type_scores query) eqn:Hts; [|done].
    split; [done|]. by apply classify_fallback.
  - right. destruct (sorted_desc_head _ _ _ Hs) as (l1 & l2 & Hl & H1 & H2).
    exists h, r, l1, l2. split_and!; try done. by apply classify_sorted.
Qed.

(** ** Looking scores and matches up *)

Lemma dict_get_scored t m :
  dict_get t (scored m) = _calculate_confidence_score <$> dict_get t m.
Proof.
  unfold scored. induction m as [|[t' d] m IH]; simpl; [done|].
  by destruct (decide (t = t')).
Qed.

Lemma dict_get_table_elem {V} t (v : V) (table : list (QueryType * V)) :
  dict_get t table = Some v -> t ∈ table.*1.
Proof.
  intros Hget. apply dict_get_Some_elem in Hget.
  apply list_elem_of_fmap. by exists (t, v).
Qed.

(** The tiers recorded for a type of the table: those of [tier_matches]
    when there is a hit, and no entry at all otherwise. *)
Lemma dict_get_keyword_matches query t pks :
  dict_get t QUERY_KEYWORDS = Some pks ->
  dict_get t (_calculate_keyword_matches query)
  = match tier_matches (lower query) pks with
    | [] => None
    | d => Some d
    end.
Proof.
  intros Hget. pose proof QUERY_KEYWORDS_wf as [Hnd _].
  pose proof (keyword_matches_sorted query) as Hs.
  apply decl_sorted_NoDup in Hs. rewrite keyword_matches_spec in *.
  destruct (tier_matches (lower query) pks) as [|x d] eqn:Hd.
  - apply dict_get_None. intros Hin.
    apply list_elem_of_fmap in Hin as ([t' d'] & Heq & Hin).
    simpl in Heq. subst t'.
    apply table_matches_elem in Hin as (pks' & Hin & -> & Hne).
    apply (dict_get_elem _ _ _ Hnd) in Hin. congruence.
  - apply dict_get_elem; [done|]. apply table_matches_elem.
    exists pks. split; [by apply dict_get_Some_elem|]. by rewrite Hd.
Qed.

Lemma type_scores_keys query t :
  t ∈ (type_scores query).*1 -> t ∈ QUERY_KEYWORDS.*1.
Proof.
  rewrite type_scores_spec, scored_keys, keyword_matches_spec.
  apply table_matches_keys.
Qed.

Lemma type_scores_not_GENERAL query t :
  t ∈ (type_scores query).*1 -> t <> GENERAL.
Proof.
  intros Hin ->. apply type_scores_keys in Hin. revert Hin.
  apply (bool_decide_unpack _). by vm_compute.
Qed.

Lemma type_scores_ge query t s :
  (t, s) ∈ type_scores query -> (3 # 10 <= s <= 1)%Q.
Proof.
  rewrite type_scores_spec. unfold scored. intros Hin.
  apply list_elem_of_fmap in Hin as ([t' d] & [= -> ->] & Hin).
  pose proof (keyword_matches_nonempty query) as Hne.
  rewrite Forall_forall in Hne. destruct (Hne _ Hin) as [Hd Hdne].
  split; [by apply confidence_score_pos|apply confidence_score_range].
Qed.

(** ** Emptiness of the matches *)

Lemma hits_nil query_lower kws :
  hits query_lower kws = [] <->
  forallb (fun kw => negb (contains kw query_lower)) kws = true.
Proof.
  unfold hits. induction kws as [|kw kws IH]; simpl; [done|].
  destruct (contains kw query_lower); simpl; [done|exact IH].
Qed.

Lemma tier_matches_nil query_lower pks :
  tier_matches query_lower pks = [] <->
  forallb
    (fun pk => forallb (fun kw => negb (contains kw query_lower)) pk.2)
    pks = true.
Proof.
  unfold tier_matches. induction pks as [|[p kws] pks IH]; simpl; [done|].
  rewrite andb_true_iff, <- IH, <- hits_nil.
  destruct (hits query_lower kws); simpl; [|split; [done|by intros [? _]]].
  split; [done|by intros [_ ?]].
Qed.

Lemma table_matches_nil query_lower table :
  table_matches query_lower table = [] <->
  forallb
    (fun tp =>
       forallb
         (fun pk => forallb (fun kw => negb (contains kw query_lower)) pk.2)
         tp.2)
    table = true.
Proof.
  unfold table_matches. induction table as [|[t pks] table IH]; simpl; [done|].
  rewrite andb_true_iff, <- IH, <- tier_matches_nil.
  destruct (tier_matches query_lower pks); simpl;
    [|split; [done|by intros [? _]]].
  split; [done|by intros [_ ?]].
Qed.

Lemma keyword_matches_nil query :
  _calculate_keyword_matches query = [] <-> no_keyword_matches query = true.
Proof. rewrite keyword_matches_spec. apply table_matches_nil. Qed.

Lemma type_scores_nil query :
  type_scores query = [] <-> no_keyword_matches query = true.
Proof.
  rewrite <- keyword_matches_nil, type_scores_spec. unfold scored.
  by destruct (_calculate_keyword_matches query).
Qed.

(** ** The diagnostic record *)

Lemma name_inj : Inj (=) (=) name.
Proof. intros [] []; simpl; intros H; done. Qed.

Lemma str_inj : Inj (=) (=) str.
Proof. intros a b [= H]. by apply name_inj. Qed.

Lemma StrKey_str_inj : Inj (=) (=) (fun t => StrKey (str t)).
Proof. intros a b H. injection H as H. by apply name_inj. Qed.

Lemma keyed_keys_notin t m : t ∉ m.*1 -> StrKey (str t) ∉ (keyed m).*1.
Proof.
  intros Ht Hin. apply Ht. unfold keyed in Hin.
  apply list_elem_of_fmap in Hin as ([k d] & Hk & Hin). simpl in Hk.
  apply list_elem_of_fmap in Hin as ([t' d'] & [= -> ->] & Hin).
  apply StrKey_str_inj in Hk as ->. apply list_elem_of_fmap.
  by exists (t', d').
Qed.

Lemma keywords_matched_of_from m acc :
  NoDup m.*1 ->
  Forall (fun tm => tm.2 <> []) m ->
  (forall t, t ∈ m.*1 -> StrKey (str t) ∉ acc.*1) ->
  fold_left
    (fun d kv =>
       match kv.2 with
       | [] => d
       | _ :: _ => dict_set (StrKey (str kv.1)) kv.2 d
       end)
    m acc
  = acc ++ keyed m.
Proof.
  revert acc. induction m as [|[t d] m IH]; intros acc Hnd Hne Hacc; simpl.
  - by rewrite app_nil_r.
  - apply NoDup_cons in Hnd as [Ht Hnd].
    apply Forall_cons in Hne as [Hd Hne]. simpl in Hd.
    destruct d as [|x d]; [done|].
    rewrite dict_set_notin by (apply Hacc; left).
    rewrite IH; [by rewrite <- app_assoc|done|done|].
    intros t' Ht'. rewrite fmap_app. intros Hin.
    apply elem_of_app in Hin as [Hin|Hin].
    + revert Hin. apply Hacc. by right.
    + apply list_elem_of_singleton in Hin.
      apply StrKey_str_inj in Hin as ->. done.
Qed.

Lemma keywords_matched_of_spec query :
  keywords_matched_of (_calculate_keyword_matches query)
  = keyed (_calculate_keyword_matches query).
Proof.
  unfold keywords_matched_of. rewrite keywords_matched_of_from; [done| | |].
  - apply decl_sorted_NoDup, keyword_matches_sorted.
  - eapply Forall_impl; [apply keyword_matches_nonempty|]. by intros ? [? _].
  - intros; apply not_elem_of_nil.
Qed.

Lemma dict_get_keyed t m :
  dict_get (StrKey (str t)) (keyed m) = dict_get t m.
Proof.
  unfold keyed. induction m as [|[t' d] m IH]; simpl; [done|].
  destruct (decide (t = t')) as [->|Hne].
  - by rewrite decide_True.
  - rewrite decide_False; [done|]. intros Heq.
    by apply StrKey_str_inj in Heq.
Qed.

(** No entry sits under a member of the enumeration itself. *)
Lemma dict_get_keyed_enum t m : dict_get (EnumKey t) (keyed m) = None.
Proof.
  unfold keyed. induction m as [|[t' d] m IH]; simpl; [done|].
  destruct (decide (EnumKey t = StrKey (str t'))); done.
Qed.

(** Whatever the branch, the record returned is the full table of
    matches under the names of the types. *)
Lemma classify_keywords_matched query :
  keywords_matched (_classify_query query)
  = keyed (_calculate_keyword_matches query).
Proof.
  destruct (classify_cases query) as [[Hts ->]|(h & r & l1 & l2 & _ & _ & _ & _ & ->)];
    simpl.
  - apply type_scores_nil, keyword_matches_nil in Hts. by rewrite Hts.
  - apply keywords_matched_of_spec.
Qed.

Lemma elem_of_secondary_of t rest :
  t ∈ secondary_of rest <-> exists s, (t, s) ∈ rest /\ (3 # 10 < s)%Q.
Proof.
  unfold secondary_of. rewrite elem_of_list_to_set, list_elem_of_In.
  rewrite in_map_iff. split.
  - intros ([t' s] & <- & Hin). apply filter_In in Hin as [Hin Hgt].
    exists s. split; [by apply list_elem_of_In|by apply Qgtb_true].
  - intros (s & Hin & Hgt). exists (t, s). split; [done|].
    apply filter_In. split; [by apply list_elem_of_In|by apply Qgtb_true].
Qed.

Lemma has_match_tier_matches query_lower pks :
  has_match query_lower pks = true <-> tier_matches query_lower pks <> [].
Proof.
  rewrite tier_matches_nil. unfold has_match.
  induction pks as [|[p kws] pks IH]; simpl; [done|].
  rewrite orb_true_iff, IH, andb_true_iff. clear IH.
  assert (existsb (fun kw => contains kw query_lower) kws
          = negb (forallb (fun kw => negb (contains kw query_lower)) kws))
    as ->.
  { induction kws as [|kw kws IH]; simpl; [done|].
    rewrite IH. by destruct (contains kw query_lower). }
  destruct (forallb (fun kw => negb (contains kw query_lower)) kws); simpl.
  - split; [intros [?|Hn] [_ Hf]; [done|by apply Hn]|].
    intros Hn. right. intros Hf. by apply Hn.
  - split; [by intros _ [? _]|]. intros _. by left.
Qed.

(** * The classifier: properties *)

(** C2: when several candidate types share the greatest per-type score,
    the primary type is the one declared first in [QueryType]. The primary
    type is a candidate, its score is the returned confidence, no candidate
    scores more, and every candidate that scores as much is declared no
    earlier than the primary type. *)
Theorem primary_is_first_declared_best (query : string) (t : QueryType)
    (s : Q) :
  dict_get t (type_scores query) = Some s ->
  dict_get (primary_type (_classify_query query)) (type_scores query)
  = Some (confidence_score (_classify_query query)) /\
  (s <= confidence_score (_classify_query query))%Q /\
  ((s == confidence_score (_classify_query query))%Q ->
   decl_index (primary_type (_classify_query query)) <= decl_index t).
Proof.
  intros Hget. apply dict_get_Some_elem in Hget.
  pose proof (type_scores_sorted query) as Hsorted.
  pose proof (type_scores_NoDup query) as Hnd.
  destruct (classify_cases query)
    as [[Hts _]|(h & r & l1 & l2 & _ & Hts & Hl1 & Hl2 & ->)]; simpl.
  - rewrite Hts in Hget. by apply elem_of_nil in Hget.
  - rewrite Hts in Hget, Hsorted. rewrite Forall_forall in Hl1, Hl2.
    split_and!.
    + apply dict_get_elem; [done|]. rewrite Hts.
      apply elem_of_app. right. destruct h. left.
    + apply elem_of_app in Hget as [Hin|Hin].
      * specialize (Hl1 _ Hin). simpl in Hl1. lra.
      * apply elem_of_cons in Hin as [Hh|Hin]; [subst h; simpl; lra|].
        apply (Hl2 _ Hin).
    + intros Heq. apply elem_of_app in Hget as [Hin|Hin].
      * specialize (Hl1 _ Hin). simpl in Hl1. lra.
      * apply elem_of_cons in Hin as [Hh|Hin]; [by subst h|].
        rewrite fmap_app, fmap_cons in Hsorted.
        apply StronglySorted_app_1_r, StronglySorted_inv in Hsorted
          as [_ Hh].
        rewrite Forall_forall in Hh.
        assert (decl_lt h.1 t) as Hlt.
        { apply Hh. apply list_elem_of_fmap. by exists (t, s). }
        unfold decl_lt in Hlt. lia.
Qed.

Lemma primary_is_first_declared_best_witness :
  dict_get ARCHITECTURE (type_scores "architecture protocol security")
  = Some (confidence_score (_classify_query "architecture protocol security"))
  /\ decl_index (primary_type (_classify_query "architecture protocol security"))
     <= decl_index SECURITY.
Proof.
  destruct (primary_is_first_declared_best
              "architecture protocol security" SECURITY 1)
    as (Hp & _ & Hfirst).
  - vm_compute. reflexivity.
  - split; [exact Hp|]. apply Hfirst. vm_compute. reflexivity.
Defined.

(** C3, as amended: the returned [keywords_matched] has an entry for
    every type with at least one matched keyword, whether or not the type
    became primary or secondary. The entry sits under the string
    [str(t)], not under the member [t] itself, and maps each tier with a
    hit to the keywords of that tier found in the query, in table order. *)
Theorem keywords_matched_complete (query : string) (t : QueryType)
    (pks : tiers) :
  dict_get t QUERY_KEYWORDS = Some pks ->
  has_match (lower query) pks = true ->
  dict_get (StrKey (str t)) (keywords_matched (_classify_query query))
  = Some (tier_matches (lower query) pks) /\
  forall p kws,
    dict_get p pks = Some kws ->
    dict_get p (tier_matches (lower query) pks)
    = match hits (lower query) kws with
      | [] => None
      | found => Some found
      end.
Proof.
  intros Hget Hm. split.
  - rewrite classify_keywords_matched, dict_get_keyed.
    rewrite (dict_get_keyword_matches _ _ _ Hget).
    apply has_match_tier_matches in Hm.
    by destruct (tier_matches (lower query) pks).
  - assert (NoDup pks.*1) as Hnd.
    { pose proof QUERY_KEYWORDS_wf as [_ Hwf]. rewrite Forall_forall in Hwf.
      apply (Hwf (t, pks)). by apply dict_get_Some_elem. }
    clear Hget Hm. unfold tier_matches.
    induction pks as [|[p' kws'] pks IH]; intros p kws; simpl; [done|].
    apply NoDup_cons in Hnd as [Hp' Hnd].
    destruct (decide (p = p')) as [->|Hne].
    + intros [= ->]. destruct (hits (lower query) kws) eqn:Hh; simpl.
      * apply dict_get_None. intros Hin.
        apply list_elem_of_fmap in Hin as ([p0 d] & Hp & Hin).
        simpl in Hp. subst p0.
        apply elem_of_flat_map in Hin as ([p1 kws1] & Hin & Hpres).
        apply present_elem in Hpres as [Hpair _]. simpl in Hpair.
        injection Hpair as Hp1 _. subst p1.
        apply Hp'. apply list_elem_of_fmap. by exists (p', kws1).
      * by rewrite decide_True.
    + intros Hk. destruct (hits (lower query) kws'); simpl.
      * by apply IH.
      * rewrite decide_False by done. by apply IH.
Qed.

Lemma keywords_matched_complete_witness :
  dict_get (StrKey (str PERFORMANCE))
    (keywords_matched (_classify_query "authentication to measure"))
  = Some (tier_matches (lower "authentication to measure")
            (entry
               ["performance"; "throughput"; "latency"; "bandwidth";
                "capacity"]
               ["speed"; "efficiency"; "optimization"; "metric"]
               ["fast"; "slow"; "measure"])).
Proof.
  apply (keywords_matched_complete "authentication to measure" PERFORMANCE).
  - reflexivity.
  - vm_compute. reflexivity.
Defined.

(** A type that is neither primary nor secondary is still recorded. *)
Example keywords_matched_beyond_secondary :
  primary_type (_classify_query "authentication to measure") = SECURITY /\
  secondary_types (_classify_query "authentication to measure") = ∅ /\
  dict_get (StrKey (str PERFORMANCE))
    (keywords_matched (_classify_query "authentication to measure"))
  = Some [(low_priority, ["measure"])].
Proof. vm_compute. by split_and!. Qed.

(** C3 as stated fails: for the query below SECURITY has a matched
    keyword, and [keywords_matched] has no entry under the member
    SECURITY; its one key is the string "QueryType.SECURITY". *)
Lemma keywords_matched_keyed_by_name :
  has_match (lower "security")
    (default [] (dict_get SECURITY QUERY_KEYWORDS)) = true /\
  dict_get (EnumKey SECURITY) (keywords_matched (_classify_query "security"))
  = None /\
  (keywords_matched (_classify_query "security")).*1
  = [StrKey "QueryType.SECURITY"].
Proof. vm_compute. by split_and!. Qed.

Lemma classify_confidence_range (query : string) :
  (0 <= confidence_score (_classify_query query) <= 1)%Q.
Proof.
  destruct (classify_cases query)
    as [[_ ->]|(x & r & l1 & l2 & _ & Hts & _ & _ & ->)]; simpl.
  - lra.
  - assert ((x.1, x.2) ∈ type_scores query) as Hin.
    { rewrite Hts. apply elem_of_app. right. destruct x. left. }
    apply type_scores_ge in Hin. lra.
Qed.

(** Within a tier of the table no keyword is listed twice, so counting
    the hits of a tier counts distinct keywords. *)
Lemma QUERY_KEYWORDS_distinct :
  Forall (fun tp => Forall (fun pk => NoDup pk.2) tp.2) QUERY_KEYWORDS.
Proof. apply (bool_decide_unpack _). by vm_compute. Qed.

Lemma hits_NoDup query_lower kws :
  NoDup kws -> NoDup (hits query_lower kws).
Proof.
  unfold hits. induction 1 as [|kw kws Hkw Hnd IH]; simpl; [constructor|].
  destruct (contains kw query_lower); [|done].
  constructor; [|done]. intros Hin. apply Hkw.
  apply list_elem_of_In, filter_In in Hin as [Hin _].
  by apply list_elem_of_In.
Qed.



(** C5: when no keyword of any type occurs in the lowercased query, the
    empty query included, the classifier returns exactly the fallback:
    [GENERAL], no secondary type, confidence 0.0 and no recorded match. *)
Theorem no_match_gives_fallback (query : string) :
  no_keyword_matches query = true ->
  _classify_query query
  = {| primary_type := GENERAL;
       secondary_types := ∅;
       confidence_score := 0;
       keywords_matched := [] |}.
Proof.
  intros Hno. apply classify_fallback. by apply type_scores_nil.
Qed.

Lemma no_match_gives_fallback_witness :
  _classify_query "hello" = fallback /\ _classify_query "" = fallback.
Proof.
  split.
  - apply (no_match_gives_fallback "hello"). vm_compute. reflexivity.
  - apply (no_match_gives_fallback ""). vm_compute. reflexivity.
Defined.

(** C6: a secondary type is never the primary type, and its score is
    strictly above 0.3. *)
Theorem secondary_types_sound (query : string) (t : QueryType) :
  t ∈ secondary_types (_classify_query query) ->
  t <> primary_type (_classify_query query) /\
  exists s, dict_get t (type_scores query) = Some s /\ (3 # 10 < s)%Q.
Proof.
  pose proof (type_scores_NoDup query) as Hnd.
  destruct (classify_cases query)
    as [[_ ->]|(h & r & l1 & l2 & Hs & _ & _ & _ & ->)]; simpl.
  - intros Hin. by apply not_elem_of_empty in Hin.
  - intros Hin. apply elem_of_secondary_of in Hin as (s & Hin & Hgt).
    pose proof (sorted_desc_perm (type_scores query)) as Hperm.
    rewrite Hs in Hperm.
    assert (NoDup (h :: r).*1) as Hnd' by by rewrite Hperm.
    rewrite fmap_cons in Hnd'. apply NoDup_cons in Hnd' as [Hh _].
    split.
    + intros ->. apply Hh. apply list_elem_of_fmap. by exists (h.1, s).
    + exists s. split; [|done]. apply dict_get_elem; [done|].
      rewrite <- Hperm. by right.
Qed.

Lemma secondary_types_sound_witness :
  PERFORMANCE <> primary_type (_classify_query "authentication optimization")
  /\ exists s,
       dict_get PERFORMANCE (type_scores "authentication optimization")
       = Some s /\ (3 # 10 < s)%Q.
Proof.
  apply (secondary_types_sound "authentication optimization" PERFORMANCE).
  vm_compute. reflexivity.
Defined.

(** ** Case *)

Lemma case_variant_lower (a b : string) :
  case_variant a b <-> lower a = lower b.
Proof.
  split.
  - induction 1 as [|c c' s s' Hc _ IH]; simpl; [done|]. by rewrite Hc, IH.
  - revert b. induction a as [|c s IH]; intros [|c' s']; simpl; try done.
    + intros _. constructor.
    + intros [= Hc Hs]. constructor; [done|]. by apply IH.
Qed.



(** Every keyword of the table is already in lower case. *)
Lemma QUERY_KEYWORDS_lowercase :
  Forall
    (fun tp => Forall (fun pk => Forall (fun kw => lower kw = kw) pk.2) tp.2)
    QUERY_KEYWORDS.
Proof. apply (bool_decide_unpack _). by vm_compute. Qed.



(** C10: [GENERAL] is the primary type exactly when no keyword matched,
    which is also exactly when [keywords_matched] is empty and exactly
    when the confidence is 0.0; [GENERAL] has no entry in the keyword table
    and is never a secondary type. *)
Theorem general_iff_no_match (query : string) :
  (primary_type (_classify_query query) = GENERAL
   <-> no_keyword_matches query = true) /\
  (keywords_matched (_classify_query query) = []
   <-> no_keyword_matches query = true) /\
  ((confidence_score (_classify_query query) == 0)%Q
   <-> no_keyword_matches query = true) /\
  dict_get GENERAL QUERY_KEYWORDS = None /\
  GENERAL ∉ secondary_types (_classify_query query).
Proof.
  destruct (no_keyword_matches query) eqn:Hno.
  - rewrite (classify_fallback query) by by apply type_scores_nil.
    unfold fallback. simpl.
    split_and!; try done; apply not_elem_of_empty.
  - assert (type_scores query <> []) as Hts.
    { intros Hts. apply type_scores_nil in Hts. congruence. }
    pose proof (sorted_desc_perm (type_scores query)) as Hperm.
    destruct (classify_cases query)
      as [[Hnil _]|(h & r & l1 & l2 & Hs & _ & _ & _ & Hc)]; [done|].
    rewrite Hs in Hperm.
    assert ((h.1, h.2) ∈ type_scores query) as Hh.
    { rewrite <- Hperm. destruct h. left. }
    split_and!.
    + split; [|done]. rewrite Hc. simpl. intros Hg.
      exfalso. apply (type_scores_not_GENERAL query h.1); [|done].
      apply list_elem_of_fmap. by exists (h.1, h.2).
    + split; [|done]. rewrite classify_keywords_matched. intros Hk.
      exfalso. apply Hts. rewrite type_scores_spec.
      unfold keyed in Hk. by destruct (_calculate_keyword_matches query).
    + split; [|done]. rewrite Hc. simpl. intros H0.
      apply type_scores_ge in Hh. lra.
    + reflexivity.
    + rewrite Hc. simpl. intros Hin.
      apply elem_of_secondary_of in Hin as (s & Hin & _).
      apply (type_scores_not_GENERAL query GENERAL); [|done].
      apply list_elem_of_fmap. exists (GENERAL, s). split; [done|].
      rewrite <- Hperm. by right.
Qed.

(** * The composer: properties *)

(** ** Strings and f-strings *)

Lemma append_cons (c : ascii) (s t : string) :
  String c s +:+ t = String c (s +:+ t).
Proof. reflexivity. Qed.

Lemma append_nil_r (s : string) : s +:+ "" = s.
Proof.
  induction s as [|c s IH]; [done|]. by rewrite append_cons, IH.
Qed.

Lemma append_assoc (a b c : string) : (a +:+ b) +:+ c = a +:+ (b +:+ c).
Proof.
  induction a as [|x a IH]; [done|]. by rewrite !append_cons, IH.
Qed.

Lemma fstring_cons (x : string) (xs : list string) :
  fstring (x :: xs) = x +:+ fstring xs.
Proof.
  unfold fstring. destruct xs as [|y ys]; [|reflexivity].
  symmetry. apply append_nil_r.
Qed.

(** Moving one piece of the left-hand side into the prefix. *)
Lemma peel_piece (p s pre rest : string) :
  s = pre +:+ rest -> p +:+ s = (p +:+ pre) +:+ rest.
Proof. intros ->. by rewrite append_assoc. Qed.

(** Cutting a literal piece in two; the cut is checked by computation. *)
Lemma split_piece (a b s t : string) :
  b +:+ s = t -> (a +:+ b) +:+ s = a +:+ t.
Proof. intros <-. apply append_assoc. Qed.

(** ** Two decimals *)




(** The whole prompt for a query without any keyword. *)
Example prompt_without_keywords :
  generate_prompt hash_order_a "hello" = "
        Primary Focus - general:
        Provide a clear, technical response with relevant 3GPP specification references.
        
        
        
        
        Query Classification Confidence: 0.00
        
        User Query: hello
        
        Response Guidelines:
        1. Start with a clear overview
        2. Focus on general-related aspects
        3. Include relevant 3GPP specification references
        4. Provide practical examples where applicable
        5. Consider interdependencies with other aspects
        6. Conclude with key takeaways and considerations
        ".
Proof. vm_compute. reflexivity. Qed.

(** ** Secondary excerpts *)

Lemma secondary_contexts_of_from contexts secondary acc :
  fold_left
    (fun secondary_contexts secondary_type =>
       match dict_get secondary_type contexts with
       | Some context =>
           let context_lines := split newline context in
           secondary_contexts ++ slice 1 4 context_lines
       | None => secondary_contexts
       end)
    secondary acc
  = acc ++ flat_map (excerpt_of contexts) secondary.
Proof.
  revert acc. induction secondary as [|t ts IH]; intros acc; simpl.
  - by rewrite app_nil_r.
  - rewrite IH. unfold excerpt_of at 2, newline.
    destruct (dict_get t contexts); simpl; [by rewrite <- app_assoc|done].
Qed.

Lemma secondary_contexts_of_spec contexts secondary :
  secondary_contexts_of contexts secondary
  = flat_map (excerpt_of contexts) secondary.
Proof. apply secondary_contexts_of_from. Qed.

(** [l[1:4]] holds the items of [l] at the indices 1, 2 and 3, as many of
    them as [l] has. *)
Lemma slice_1_4_lookup {A} (l : list A) (i : nat) :
  slice 1 4 l !! i = if decide (i < 3) then l !! S i else None.
Proof.
  unfold slice. change (4 - 1) with 3. destruct (decide (i < 3)).
  - by rewrite lookup_take_lt, lookup_drop.
  - apply lookup_take_ge. lia.
Qed.

(** Every built-in template starts with a line break, so the first item
    of its [split] is empty and the second is its header line. *)
Lemma SPECIALIZED_CONTEXTS_lines (t : QueryType) (context : string) :
  dict_get t SPECIALIZED_CONTEXTS = Some context ->
  exists bullet1 bullet2 more,
    split newline context
    = "" :: header_line t :: bullet1 :: bullet2 :: more.
Proof.
  destruct t; intros H; vm_compute in H; try discriminate H;
    injection H as <-; vm_compute; eexists _, _, _; reflexivity.
Qed.

(** C1, as amended: for every secondary type with a template the composer
    adds the items 1 to 3 of the template split at line breaks, fewer when
    the template is shorter, and nothing else; these lines sit in the
    prompt under the "Additional Considerations:" header. The item that is
    skipped is the first one, which for every built-in template is the
    empty line before the header line: the excerpt is the header line of
    the template and its first two bullet lines. *)
Theorem secondary_excerpts_in_prompt (contexts : list (QueryType * string))
    (order : SetOrder) (query : string) (c : QueryClassification)
    (t : QueryType) (context : string) :
  t ∈ secondary_types c ->
  dict_get t contexts = Some context ->
  let context_lines := split newline context in
  let excerpt := slice 1 4 context_lines in
  let secondary_contexts :=
    secondary_contexts_of contexts (visit order (secondary_types c)) in
  (forall i,
     excerpt !! i = if decide (i < 3) then context_lines !! S i else None) /\
  secondary_contexts
  = flat_map (excerpt_of contexts) (visit order (secondary_types c)) /\
  (exists before after, secondary_contexts = before ++ excerpt ++ after) /\
  (excerpt <> [] ->
   exists pre post,
     compose contexts order query c
     = pre +:+ "Additional Considerations:" +:+ nl +:+ indent
       +:+ join nl secondary_contexts +:+ nl +:+ post) /\
  (contexts = SPECIALIZED_CONTEXTS ->
   exists bullet1 bullet2 more,
     context_lines = "" :: header_line t :: bullet1 :: bullet2 :: more /\
     excerpt = [header_line t; bullet1; bullet2]).
Proof.
  intros Ht Hctx context_lines excerpt secondary_contexts.
  assert (exists before after,
             secondary_contexts = before ++ excerpt ++ after) as Hmid.
  { unfold secondary_contexts. rewrite secondary_contexts_of_spec.
    assert (t ∈ visit order (secondary_types c)) as Hin.
    { rewrite (visit_perm order). by apply elem_of_elements. }
    apply list_elem_of_split in Hin as (l1 & l2 & ->).
    exists (flat_map (excerpt_of contexts) l1),
      (flat_map (excerpt_of contexts) l2).
    rewrite flat_map_app. simpl. unfold excerpt_of at 2. by rewrite Hctx. }
  split_and!.
  - apply slice_1_4_lookup.
  - apply secondary_contexts_of_spec.
  - done.
  - intros Hne. unfold compose. fold secondary_contexts.
    destruct Hmid as (before & after & Hsec).
    destruct secondary_contexts as [|line lines] eqn:Hs.
    { destruct before; [|done]. by destruct excerpt. }
    eexists _, _. rewrite !fstring_cons. do 5 apply peel_piece.
    apply (split_piece "" "Additional Considerations:"). reflexivity.
  - intros ->.
    destruct (SPECIALIZED_CONTEXTS_lines _ _ Hctx) as (b1 & b2 & more & Hl).
    exists b1, b2, more. split; [done|].
    unfold excerpt, context_lines. by rewrite Hl.
Qed.

Lemma secondary_excerpts_in_prompt_witness :
  exists pre post,
    compose SPECIALIZED_CONTEXTS hash_order_a "authentication optimization"
      (_classify_query "authentication optimization")
    = pre +:+ "Additional Considerations:" +:+ nl +:+ indent
      +:+ join nl
            (secondary_contexts_of SPECIALIZED_CONTEXTS
               (visit hash_order_a
                  (secondary_types
                     (_classify_query "authentication optimization"))))
      +:+ nl +:+ post.
Proof.
  assert (PERFORMANCE
          ∈ secondary_types (_classify_query "authentication optimization"))
    as Ht by (vm_compute; reflexivity).
  assert (dict_get PERFORMANCE SPECIALIZED_CONTEXTS
          = Some (default "" (dict_get PERFORMANCE SPECIALIZED_CONTEXTS)))
    as Hctx by (vm_compute; reflexivity).
  destruct (secondary_excerpts_in_prompt SPECIALIZED_CONTEXTS hash_order_a
              "authentication optimization" _ _ _ Ht Hctx)
    as (_ & _ & _ & Hprompt & _).
  apply Hprompt. vm_compute. discriminate.
Defined.

(** C1 as stated fails: for the query below PERFORMANCE is the one
    secondary type, and what the composer adds for it starts with the
    header line of the PERFORMANCE template and stops after the second
    bullet, where lines 2 to 4 of the template text are its first three
    bullets. *)
Lemma excerpt_keeps_header_line :
  secondary_types (_classify_query "authentication optimization")
  = {[PERFORMANCE]} /\
  secondary_contexts_of SPECIALIZED_CONTEXTS
    (visit hash_order_a
       (secondary_types (_classify_query "authentication optimization")))
  = [ "        For performance-related queries:";
      "        - List key performance indicators";
      "        - Provide measurement methods" ] /\
  excerpt_skipping_header
    (default "" (dict_get PERFORMANCE SPECIALIZED_CONTEXTS))
  = [ "        - List key performance indicators";
      "        - Provide measurement methods";
      "        - Include benchmark data" ] /\
  secondary_contexts_of SPECIALIZED_CONTEXTS
    (visit hash_order_a
       (secondary_types (_classify_query "authentication optimization")))
  <> excerpt_skipping_header
       (default "" (dict_get PERFORMANCE SPECIALIZED_CONTEXTS)).
Proof.
  split_and!.
  - vm_compute. reflexivity.
  - vm_compute. reflexivity.
  - vm_compute. reflexivity.
  - vm_compute. discriminate.
Qed.

(** ** The order of the secondary types *)





(** ** Binary64 and exact scores *)

Lemma reachable_scores_agree :
  forallb
    (fun d => score_agrees d && forallb (order_agrees d) reachable_tiers)
    reachable_tiers
  = true.
Proof. vm_compute. reflexivity. Qed.

Lemma confidence_score_shape (d d' : tiers) :
  shape d = shape d' ->
  _calculate_confidence_score d = _calculate_confidence_score d'.
Proof.
  intros Hs. unfold _calculate_confidence_score. f_equal.
  assert (forall (e : tiers) a,
            fold_left
              (fun score pk =>
                 (score + inject_Z (Z.of_nat (length pk.2)) * weights pk.1)%Q)
              e a
            = fold_left
                (fun score pn =>
                   (score + inject_Z (Z.of_nat pn.2) * weights pn.1)%Q)
                (shape e) a) as Hfold.
  { induction e as [|pk e IH]; intros a; simpl; [done|]. apply IH. }
  by rewrite !Hfold, Hs.
Qed.

Lemma float_confidence_score_shape (d d' : tiers) :
  shape d = shape d' ->
  float_confidence_score d = float_confidence_score d'.
Proof.
  intros Hs. unfold float_confidence_score.
  assert (forall (e : tiers) a,
            fold_left
              (fun score pk =>
                 (score + float_of_nat (length pk.2) * float_weights pk.1)
                 %float)
              e a
            = fold_left
                (fun score pn =>
                   (score + float_of_nat pn.2 * float_weights pn.1)%float)
                (shape e) a) as Hfold.
  { induction e as [|pk e IH]; intros a; simpl; [done|]. apply IH. }
  by rewrite !Hfold, Hs.
Qed.

Lemma shape_present (p : Priority) (l : list string) :
  shape (present p l) = shape (present p (replicate (length l) "")).
Proof. destruct l; simpl; [done|]. by rewrite length_replicate. Qed.

Lemma shape_tier_matches query_lower h m l :
  shape (tier_matches query_lower (entry h m l))
  = shape (tiers_with (length (hits query_lower h))
             (length (hits query_lower m)) (length (hits query_lower l))).
Proof.
  unfold tier_matches, tiers_with, shape. simpl.
  rewrite app_nil_r, !map_app. fold shape.
  by rewrite !(shape_present _ (hits _ _)).
Qed.

Lemma hits_length query_lower kws :
  length (hits query_lower kws) <= length kws.
Proof.
  unfold hits. induction kws as [|kw kws IH]; simpl; [done|].
  destruct (contains kw query_lower); simpl; lia.
Qed.

Lemma tiers_with_reachable h m l :
  h < 7 -> m < 6 -> l < 4 -> tiers_with h m l ∈ reachable_tiers.
Proof.
  intros Hh Hm Hl. unfold reachable_tiers.
  apply list_elem_of_bind. exists h. split; [|apply elem_of_seq; lia].
  apply list_elem_of_bind. exists m. split; [|apply elem_of_seq; lia].
  apply list_elem_of_bind. exists l. split; [|apply elem_of_seq; lia].
  left.
Qed.

Lemma QUERY_KEYWORDS_sizes :
  Forall
    (fun tp =>
       exists h m l,
         tp.2 = entry h m l /\ length h < 7 /\ length m < 6 /\ length l < 4)
    QUERY_KEYWORDS.
Proof.
  repeat (apply Forall_cons; split;
          [eexists _, _, _; split; [reflexivity|simpl; lia]|]).
  apply Forall_nil_2.
Qed.

Lemma tier_matches_reachable query_lower t pks :
  (t, pks) ∈ QUERY_KEYWORDS ->
  exists d,
    d ∈ reachable_tiers /\ shape (tier_matches query_lower pks) = shape d.
Proof.
  intros Hin. pose proof QUERY_KEYWORDS_sizes as Hsz.
  rewrite Forall_forall in Hsz.
  destruct (Hsz _ Hin) as (h & m & l & Hpks & Hh & Hm & Hl).
  simpl in Hpks. subst pks.
  eexists. split; [|apply shape_tier_matches].
  pose proof (hits_length query_lower h).
  pose proof (hits_length query_lower m).
  pose proof (hits_length query_lower l).
  apply tiers_with_reachable; lia.
Qed.

(** On the matches of any two types of the table, for any query, binary64
    and exact arithmetic take the same decisions and print the same
    confidence. *)
Lemma float_scores_agree query_lower t t' pks pks' :
  (t, pks) ∈ QUERY_KEYWORDS ->
  (t', pks') ∈ QUERY_KEYWORDS ->
  score_agrees (tier_matches query_lower pks) = true /\
  order_agrees (tier_matches query_lower pks)
    (tier_matches query_lower pks') = true.
Proof.
  intros Hin Hin'.
  destruct (tier_matches_reachable query_lower _ _ Hin) as (d & Hd & Hs).
  destruct (tier_matches_reachable query_lower _ _ Hin') as (d' & Hd' & Hs').
  pose proof reachable_scores_agree as Hall.
  rewrite forallb_forall in Hall.
  apply list_elem_of_In, Hall, andb_true_iff in Hd as [H1 H2].
  rewrite forallb_forall in H2.
  apply list_elem_of_In, H2 in Hd'.
  unfold score_agrees, order_agrees in *.
  by rewrite (confidence_score_shape _ _ Hs),
    (confidence_score_shape _ _ Hs'),
    (float_confidence_score_shape _ _ Hs),
    (float_confidence_score_shape _ _ Hs').
Qed.

(** * Further properties of the classifier and the composer *)

(** ** Substrings *)

Lemma prefix_spec (a b : string) :
  String.prefix a b = true <-> exists post, b = a +:+ post.
Proof.
  revert b. induction a as [|c a IH]; intros b; simpl.
  - split; [intros _; by exists b|]. intros _. by destruct b.
  - destruct b as [|c' b]; simpl.
    + split; [done|]. by intros [post Hp].
    + destruct (ascii_dec c c') as [->|Hne].
      * rewrite IH. split.
        -- intros [post ->]. by exists post.
        -- intros [post Hp]. rewrite append_cons in Hp.
           injection Hp as ->. by exists post.
      * split; [done|]. intros [post Hp]. rewrite append_cons in Hp.
        injection Hp as Hc _. by destruct Hne.
Qed.

(** [contains] is Python's [in] on strings: the keyword may start at any
    position of the text. *)
Lemma contains_spec (kw s : string) :
  contains kw s = true <-> occurs_in kw s.
Proof.
  unfold occurs_in. induction s as [|c s IH].
  - change (contains kw "") with (String.prefix kw "" || false).
    rewrite orb_false_r, prefix_spec. split.
    + intros [post Hp]. by exists "", post.
    + intros ([|c pre] & post & Hp); [by exists post|done].
  - change (contains kw (String c s))
      with (String.prefix kw (String c s) || contains kw s).
    rewrite orb_true_iff, prefix_spec, IH. split.
    + intros [[post Hp]|(pre & post & Hp)].
      * by exists "", post.
      * exists (String c pre), post. by rewrite append_cons, Hp.
    + intros ([|c' pre] & post & Hp).
      * left. by exists post.
      * right. rewrite append_cons in Hp. injection Hp as _ ->.
        by exists pre, post.
Qed.

Lemma occurs_in_trans (a b s : string) :
  occurs_in a b -> occurs_in b s -> occurs_in a s.
Proof.
  intros (p1 & q1 & ->) (p2 & q2 & ->).
  exists (p2 +:+ p1), (q1 +:+ q2). by rewrite !append_assoc.
Qed.

Lemma lower_app (a b : string) : lower (a +:+ b) = lower a +:+ lower b.
Proof.
  induction a as [|c a IH]; [done|].
  rewrite append_cons. simpl. by rewrite IH, append_cons.
Qed.

Lemma occurs_in_lower_app (kw pre s post : string) :
  occurs_in kw (lower s) -> occurs_in kw (lower (pre +:+ s +:+ post)).
Proof.
  intros (p & q & Hs). rewrite !lower_app, Hs.
  exists (lower pre +:+ p), (q +:+ lower post). by rewrite !append_assoc.
Qed.

(** ** What is recorded *)

Lemma dict_get_tier_matches query_lower (pks : tiers) p kws :
  NoDup pks.*1 ->
  dict_get p pks = Some kws ->
  dict_get p (tier_matches query_lower pks)
  = match hits query_lower kws with
    | [] => None
    | found => Some found
    end.
Proof.
  unfold tier_matches. revert p kws.
  induction pks as [|[p' kws'] pks IH]; intros p kws Hnd; simpl; [done|].
  apply NoDup_cons in Hnd as [Hp' Hnd].
  destruct (decide (p = p')) as [->|Hne].
  - intros [= ->]. destruct (hits query_lower kws) eqn:Hh; simpl.
    + apply dict_get_None. intros Hin.
      apply list_elem_of_fmap in Hin as ([p0 d] & Hp & Hin).
      simpl in Hp. subst p0.
      apply elem_of_flat_map in Hin as ([p1 kws1] & Hin & Hpres).
      apply present_elem in Hpres as [Hpair _]. simpl in Hpair.
      injection Hpair as Hp1 _. subst p1.
      apply Hp'. apply list_elem_of_fmap. by exists (p', kws1).
    + by rewrite decide_True.
  - intros Hk. destruct (hits query_lower kws'); simpl.
    + by apply IH.
    + rewrite decide_False by done. by apply IH.
Qed.

Lemma table_tiers_NoDup t pks :
  dict_get t QUERY_KEYWORDS = Some pks -> NoDup pks.*1.
Proof.
  intros Hget. pose proof QUERY_KEYWORDS_wf as [_ Hwf].
  rewrite Forall_forall in Hwf. apply (Hwf (t, pks)).
  by apply dict_get_Some_elem.
Qed.

(** The keywords recorded for a type and a tier are the hits of that
    tier. *)
Lemma recorded_hits query t pks p kws :
  dict_get t QUERY_KEYWORDS = Some pks ->
  dict_get p pks = Some kws ->
  recorded query t p = hits (lower query) kws.
Proof.
  intros Ht Hp. unfold recorded.
  rewrite (dict_get_keyword_matches _ _ _ Ht).
  pose proof (dict_get_tier_matches (lower query) pks p kws
                (table_tiers_NoDup _ _ Ht) Hp) as Hd.
  destruct (tier_matches (lower query) pks) as [|x d] eqn:Htm.
  - simpl in Hd. by destruct (hits (lower query) kws).
  - rewrite Hd. by destruct (hits (lower query) kws).
Qed.

Lemma elem_of_hits query_lower kws kw :
  kw ∈ hits query_lower kws <-> kw ∈ kws /\ occurs_in kw query_lower.
Proof.
  unfold hits. rewrite list_elem_of_In, filter_In, <- list_elem_of_In.
  by rewrite contains_spec.
Qed.

(** X1: a keyword is recorded for a type and a tier exactly when the table
    lists it there and it occurs somewhere in the lowercased query, inside
    a longer word or not; the recorded keywords keep the order of the
    table and none is recorded twice. *)
Theorem keyword_recorded_iff (query : string) (t : QueryType)
    (pks : tiers) (p : Priority) (kws : list string) (kw : string) :
  dict_get t QUERY_KEYWORDS = Some pks ->
  dict_get p pks = Some kws ->
  (kw ∈ recorded query t p <-> kw ∈ kws /\ occurs_in kw (lower query)) /\
  recorded query t p `sublist_of` kws /\
  NoDup (recorded query t p).
Proof.
  intros Ht Hp. rewrite (recorded_hits _ _ _ _ _ Ht Hp). split_and!.
  - apply elem_of_hits.
  - unfold hits. clear. induction kws as [|k kws IH]; simpl; [done|].
    destruct (contains k (lower query)); by constructor.
  - apply hits_NoDup.
    pose proof QUERY_KEYWORDS_distinct as Hd. rewrite Forall_forall in Hd.
    apply dict_get_Some_elem, Hd in Ht. rewrite Forall_forall in Ht.
    apply (Ht (p, kws)). by apply dict_get_Some_elem.
Qed.

Lemma keyword_recorded_iff_witness :
  "can" ∈ recorded "A new scanner" FEATURE low_priority.
Proof.
  eapply (keyword_recorded_iff "A new scanner" FEATURE).
  - reflexivity.
  - reflexivity.
  - split; [vm_compute; by repeat constructor|].
    exists "a new s", "ner". reflexivity.
Defined.

(** ** The keys of the diagnostic record *)

Lemma keyed_table_matches_keys query_lower table :
  (keyed (table_matches query_lower table)).*1
  = map (fun tp => StrKey (str tp.1))
      (List.filter (fun tp => has_match query_lower tp.2) table).
Proof.
  unfold keyed, table_matches.
  induction table as [|[t pks] table IH]; simpl; [done|].
  rewrite map_app, fmap_app, IH.
  destruct (has_match query_lower pks) eqn:Hm.
  - apply has_match_tier_matches in Hm.
    by destruct (tier_matches query_lower pks).
  - assert (tier_matches query_lower pks = []) as ->; [|done].
    destruct (tier_matches query_lower pks) eqn:Htm; [done|].
    assert (has_match query_lower pks = true); [|congruence].
    apply has_match_tier_matches. by rewrite Htm.
Qed.

(** X2: [keywords_matched] lists exactly the types of which some keyword
    occurs in the query, each once and in declaration order, and holds
    neither an empty entry nor an empty tier. *)
Theorem keywords_matched_exact (query : string) :
  (keywords_matched (_classify_query query)).*1
  = map (fun tp => StrKey (str tp.1))
      (List.filter (fun tp => has_match (lower query) tp.2) QUERY_KEYWORDS) /\
  Forall (fun kd => kd.2 <> [] /\ Forall (fun pk => pk.2 <> []) kd.2)
    (keywords_matched (_classify_query query)).
Proof.
  rewrite classify_keywords_matched. split.
  - rewrite keyword_matches_spec. apply keyed_table_matches_keys.
  - unfold keyed. apply Forall_fmap.
    eapply Forall_impl; [apply keyword_matches_nonempty|]. by intros [t d].
Qed.

(** ** The primary and the secondary types *)

(** The primary type is a candidate with the greatest score, and the
    first such in declaration order. *)
Lemma classify_primary_spec query t s :
  dict_get t (type_scores query) = Some s ->
  dict_get (primary_type (_classify_query query)) (type_scores query)
  = Some (confidence_score (_classify_query query)) /\
  (s <= confidence_score (_classify_query query))%Q /\
  ((s == confidence_score (_classify_query query))%Q ->
   decl_index (primary_type (_classify_query query)) <= decl_index t).
Proof.
  intros Hget. apply dict_get_Some_elem in Hget.
  pose proof (type_scores_sorted query) as Hsorted.
  pose proof (type_scores_NoDup query) as Hnd.
  destruct (classify_cases query)
    as [[Hts _]|(h & r & l1 & l2 & _ & Hts & Hl1 & Hl2 & ->)]; simpl.
  { rewrite Hts in Hget. by apply elem_of_nil in Hget. }
  rewrite Hts in Hget, Hsorted. rewrite Forall_forall in Hl1, Hl2.
  assert ((s < h.2)%Q /\ (t, s) ∈ l1 \/ (t, s) = h
          \/ (s <= h.2)%Q /\ (t, s) ∈ l2) as Hcase.
  { apply elem_of_app in Hget as [Hin|Hin]; [left; split; [|done]|].
    - apply (Hl1 _ Hin).
    - apply elem_of_cons in Hin as [Hh|Hin]; [by right; left|].
      right; right. split; [|done]. apply (Hl2 _ Hin). }
  split; [|split].
  - apply dict_get_elem; [done|]. rewrite Hts.
    apply elem_of_app. right. destruct h. left.
  - destruct Hcase as [[Hlt _]|[<-|[Hle _]]]; simpl; lra.
  - intros Heq. destruct Hcase as [[Hlt _]|[<-|[_ Hin]]]; [lra|done|].
    rewrite fmap_app, fmap_cons in Hsorted.
    apply StronglySorted_app_1_r, StronglySorted_inv in Hsorted as [_ Hh].
    rewrite Forall_forall in Hh.
    assert (decl_lt h.1 t) as Hlt.
    { apply Hh. apply list_elem_of_fmap. by exists (t, s). }
    unfold decl_lt in Hlt. lia.
Qed.

Lemma decl_index_inj : Inj (=) (=) decl_index.
Proof. intros [] []; simpl; intros H; done. Qed.

Lemma elem_of_secondary_types query t :
  t ∈ secondary_types (_classify_query query) <->
  t <> primary_type (_classify_query query) /\
  exists s, dict_get t (type_scores query) = Some s /\ (3 # 10 < s)%Q.
Proof.
  pose proof (type_scores_NoDup query) as Hnd.
  destruct (classify_cases query)
    as [[Hts ->]|(h & r & l1 & l2 & Hs & _ & _ & _ & ->)]; simpl.
  - split.
    + intros Hin. by apply not_elem_of_empty in Hin.
    + intros (_ & s & Hget & _). by rewrite Hts in Hget.
  - pose proof (sorted_desc_perm (type_scores query)) as Hperm.
    rewrite Hs in Hperm.
    assert (NoDup (h :: r).*1) as Hnd' by by rewrite Hperm.
    rewrite fmap_cons in Hnd'. apply NoDup_cons in Hnd' as [Hh _].
    rewrite elem_of_secondary_of. split.
    + intros (s & Hin & Hgt). split.
      * intros ->. apply Hh. apply list_elem_of_fmap. by exists (h.1, s).
      * exists s. split; [|done]. apply dict_get_elem; [done|].
        rewrite <- Hperm. by right.
    + intros (Hne & s & Hget & Hgt). exists s. split; [|done].
      apply dict_get_Some_elem in Hget. rewrite <- Hperm in Hget.
      apply elem_of_cons in Hget as [Heq|Hin]; [|done].
      subst h. by destruct Hne.
Qed.

(** X3: the secondary types are exactly the candidates other than the
    primary type whose score is strictly above 0.3: none of them is left
    out, and a candidate at 0.3 or below is never one. *)
Theorem secondary_types_iff (query : string) (t : QueryType) :
  (t ∈ secondary_types (_classify_query query) <->
   t <> primary_type (_classify_query query) /\
   exists s, dict_get t (type_scores query) = Some s /\ (3 # 10 < s)%Q) /\
  (t ∈ secondary_types (_classify_query query) <->
   t <> primary_type (_classify_query query) /\ (3 # 10 < score_of query t)%Q).
Proof.
  split; [apply elem_of_secondary_types|].
  rewrite elem_of_secondary_types. unfold score_of. split.
  - intros (Hne & s & -> & Hgt). by split.
  - intros (Hne & Hgt). split; [done|].
    destruct (dict_get t (type_scores query)) as [s|]; simpl in Hgt; [|lra].
    by exists s.
Qed.

(** ** Scores in closed form *)

Lemma tier_sum_elem (d : tiers) p l :
  (p, l) ∈ d ->
  (weights p * inject_Z (Z.of_nat (length l)) <= tier_sum d)%Q.
Proof.
  induction d as [|pk d IH]; simpl; intros Hin.
  - by apply elem_of_nil in Hin.
  - pose proof (weights_ge pk.1). pose proof (inject_length_nonneg pk.2).
    pose proof (tier_sum_nonneg d).
    apply elem_of_cons in Hin as [<-|Hin]; simpl.
    + lra.
    + apply IH in Hin. nra.
Qed.

(** The score of a type of the table, candidate or not. *)
Lemma score_of_spec query t pks :
  dict_get t QUERY_KEYWORDS = Some pks ->
  (score_of query t == Qmin 1 (weighted_sum (lower query) pks))%Q.
Proof.
  intros Hget. unfold score_of.
  rewrite type_scores_spec, dict_get_scored.
  rewrite (dict_get_keyword_matches _ _ _ Hget).
  pose proof (tier_matches_sum (lower query) pks) as Htm.
  pose proof (confidence_score_spec (tier_matches (lower query) pks)) as Hcs.
  destruct (tier_matches (lower query) pks) eqn:Hd; simpl.
  - simpl in Htm. rewrite <- Htm. symmetry. apply Q.min_r. lra.
  - by rewrite Hcs, Htm.
Qed.

Lemma score_of_outside query t :
  dict_get t QUERY_KEYWORDS = None -> score_of query t = 0%Q.
Proof.
  intros Hget. unfold score_of.
  assert (dict_get t (type_scores query) = None) as ->; [|done].
  apply dict_get_None. intros Hin. apply type_scores_keys in Hin.
  by apply dict_get_None in Hget.
Qed.

Lemma score_of_le_confidence query t :
  (score_of query t <= confidence_score (_classify_query query))%Q.
Proof.
  unfold score_of. destruct (dict_get t (type_scores query)) as [s|] eqn:Hs.
  - apply (classify_primary_spec _ _ _ Hs).
  - apply classify_confidence_range.
Qed.

Lemma high_priority_hit_score query t pks kws kw :
  dict_get t QUERY_KEYWORDS = Some pks ->
  dict_get high_priority pks = Some kws ->
  kw ∈ kws ->
  occurs_in kw (lower query) ->
  (score_of query t == 1)%Q.
Proof.
  intros Ht Hp Hkw Hocc.
  assert (kw ∈ hits (lower query) kws) as Hhit by by apply elem_of_hits.
  assert (1 <= tier_sum (tier_matches (lower query) pks))%Q as Hsum.
  { pose proof (dict_get_tier_matches (lower query) pks _ _
                  (table_tiers_NoDup _ _ Ht) Hp) as Hd.
    destruct (hits (lower query) kws) as [|k ks] eqn:Hh.
    { by apply elem_of_nil in Hhit. }
    apply dict_get_Some_elem, tier_sum_elem in Hd. simpl weights in Hd.
    pose proof (inject_length_pos (k :: ks) ltac:(done)). lra. }
  rewrite (score_of_spec _ _ _ Ht), <- tier_matches_sum.
  by apply Q.min_l.
Qed.

(** X4: one high-priority keyword of any type in the query is enough for
    full confidence: that type scores 1.0, the returned confidence is 1.0
    and the primary type is not [GENERAL]. *)
Theorem high_priority_hit_gives_full_confidence (query : string)
    (t : QueryType) (pks : tiers) (kws : list string) (kw : string) :
  dict_get t QUERY_KEYWORDS = Some pks ->
  dict_get high_priority pks = Some kws ->
  kw ∈ kws ->
  occurs_in kw (lower query) ->
  (score_of query t == 1)%Q /\
  (confidence_score (_classify_query query) == 1)%Q /\
  primary_type (_classify_query query) <> GENERAL.
Proof.
  intros Ht Hp Hkw Hocc.
  pose proof (high_priority_hit_score _ _ _ _ _ Ht Hp Hkw Hocc) as Hscore.
  pose proof (score_of_le_confidence query t) as Hle.
  pose proof (classify_confidence_range query) as [_ Hle1].
  assert (confidence_score (_classify_query query) == 1)%Q as Hconf by lra.
  split_and!; [done..|].
  intros Hg. destruct (classify_cases query)
    as [[_ Hc]|(h & r & l1 & l2 & _ & Hts & _ & _ & Hc)];
    rewrite Hc in Hg, Hconf; simpl in Hg, Hconf.
  - lra.
  - apply (type_scores_not_GENERAL query h.1); [|done].
    rewrite Hts, fmap_app, fmap_cons. apply elem_of_app. right. left.
Qed.

Lemma high_priority_hit_gives_full_confidence_witness :
  (confidence_score
     (_classify_query "Is the handover Procedure fast?") == 1)%Q.
Proof.
  eapply (high_priority_hit_gives_full_confidence
            "Is the handover Procedure fast?" PROCEDURE _ _ "procedure").
  - reflexivity.
  - reflexivity.
  - left.
  - exists "is the handover ", " fast?". reflexivity.
Defined.

(** ** The values a confidence takes *)

Lemma reachable_print_known_text :
  forallb prints_known_text reachable_tiers = true.
Proof. vm_compute. reflexivity. Qed.

(** The confidence of a classification is 0 or the score of the matches of
    some type of the table. *)
Lemma classify_confidence_source query :
  confidence_score (_classify_query query) = 0%Q \/
  exists t pks,
    (t, pks) ∈ QUERY_KEYWORDS /\
    confidence_score (_classify_query query)
    = _calculate_confidence_score (tier_matches (lower query) pks).
Proof.
  destruct (classify_cases query)
    as [[_ ->]|(h & r & l1 & l2 & _ & Hts & _ & _ & ->)]; simpl; [by left|].
  right.
  assert (h ∈ type_scores query) as Hin.
  { rewrite Hts. apply elem_of_app. right. left. }
  rewrite type_scores_spec, keyword_matches_spec in Hin. unfold scored in Hin.
  apply list_elem_of_fmap in Hin as ([t d] & -> & Hin).
  apply table_matches_elem in Hin as (pks & Hin & -> & _).
  by exists t, pks.
Qed.

(** X5: whatever the query, the confidence that the prompt shows is one of
    0.00, 0.30, 0.60, 0.90 and 1.00. *)
Theorem confidence_prints_one_of_five (query : string) :
  format_2f (confidence_score (_classify_query query)) ∈ confidence_texts.
Proof.
  destruct (classify_confidence_source query)
    as [->|(t & pks & Hin & ->)].
  - vm_compute. left.
  - destruct (tier_matches_reachable (lower query) _ _ Hin) as (d & Hd & Hs).
    rewrite (confidence_score_shape _ _ Hs).
    pose proof reachable_print_known_text as Hall.
    rewrite forallb_forall in Hall.
    apply list_elem_of_In, Hall in Hd.
    unfold prints_known_text in Hd. by apply bool_decide_eq_true in Hd.
Qed.

(** ** Declaration order decides among full scores *)

Lemma first_full_score_primary query t :
  (score_of query t == 1)%Q ->
  (forall t', decl_index t' < decl_index t -> (score_of query t' < 1)%Q) ->
  primary_type (_classify_query query) = t.
Proof.
  intros Ht Hearlier. unfold score_of in Ht.
  destruct (dict_get t (type_scores query)) as [s|] eqn:Hs; simpl in Ht;
    [|lra].
  destruct (classify_primary_spec _ _ _ Hs) as (Hp & Hle & Hfirst).
  pose proof (classify_confidence_range query) as [_ Hle1].
  assert (s == confidence_score (_classify_query query))%Q as Heq by lra.
  specialize (Hfirst Heq).
  destruct (decide (decl_index (primary_type (_classify_query query))
                    = decl_index t)) as [Hi|Hi].
  - by apply decl_index_inj.
  - specialize (Hearlier (primary_type (_classify_query query)) ltac:(lia)).
    unfold score_of in Hearlier. rewrite Hp in Hearlier. simpl in Hearlier.
    lra.
Qed.

(** X6: among the types that reach the full score, the one declared first
    is the primary type, whatever else matched: a type with score 1.0 is
    primary as soon as every type declared before it scores less. *)
Theorem first_full_score_is_primary (query : string) (t : QueryType) :
  (score_of query t == 1)%Q ->
  (forall t', decl_index t' < decl_index t -> (score_of query t' < 1)%Q) ->
  primary_type (_classify_query query) = t /\
  (confidence_score (_classify_query query) == 1)%Q.
Proof.
  intros Ht Hearlier. split; [by apply first_full_score_primary|].
  pose proof (score_of_le_confidence query t).
  pose proof (classify_confidence_range query) as [_ ?]. lra.
Qed.

Lemma first_full_score_is_primary_witness :
  primary_type (_classify_query "security architecture") = ARCHITECTURE.
Proof.
  apply (first_full_score_is_primary "security architecture" ARCHITECTURE).
  - vm_compute. reflexivity.
  - intros [] Hlt; vm_compute in Hlt; try lia. vm_compute. reflexivity.
Defined.

(** X7: [PROCEDURE] is declared first, so a query in which any of its
    high-priority keywords occurs is classified as [PROCEDURE], however
    many keywords of other types it holds. *)
Theorem procedure_keyword_always_wins (query : string) (kw : string) :
  kw ∈ ["procedure"; "process"; "flow"; "step"; "sequence"; "operation"] ->
  occurs_in kw (lower query) ->
  primary_type (_classify_query query) = PROCEDURE.
Proof.
  intros Hkw Hocc. apply first_full_score_primary.
  - by apply (high_priority_hit_score query PROCEDURE _ _ kw eq_refl eq_refl).
  - intros t' Hlt. simpl in Hlt. lia.
Qed.

Lemma procedure_keyword_always_wins_witness :
  primary_type
    (_classify_query "security architecture of the authentication flow")
  = PROCEDURE.
Proof.
  apply (procedure_keyword_always_wins _ "flow").
  - vm_compute. by repeat constructor.
  - exists "security architecture of the authentication ", "". reflexivity.
Defined.

(** ** Longer queries *)

Lemma hits_mono query_lower query_lower' kws :
  (forall kw, occurs_in kw query_lower -> occurs_in kw query_lower') ->
  hits query_lower kws `sublist_of` hits query_lower' kws.
Proof.
  intros Hocc. unfold hits. induction kws as [|kw kws IH]; simpl; [done|].
  destruct (contains kw query_lower) eqn:Hc.
  - apply contains_spec, Hocc, contains_spec in Hc. rewrite Hc.
    by constructor.
  - destruct (contains kw query_lower'); [by constructor|done].
Qed.

Lemma weighted_sum_mono query_lower query_lower' pks :
  (forall kw, occurs_in kw query_lower -> occurs_in kw query_lower') ->
  (weighted_sum query_lower pks <= weighted_sum query_lower' pks)%Q.
Proof.
  intros Hocc. induction pks as [|[p kws] pks IH]; simpl; [lra|].
  pose proof (sublist_length _ _ (hits_mono _ _ kws Hocc)) as Hlen.
  assert (inject_Z (Z.of_nat (length (hits query_lower kws)))
          <= inject_Z (Z.of_nat (length (hits query_lower' kws))))%Q as Hq.
  { rewrite <- Zle_Qle. lia. }
  pose proof (weights_ge p). nra.
Qed.

Lemma score_of_mono query query' t :
  (forall kw, occurs_in kw (lower query) -> occurs_in kw (lower query')) ->
  (score_of query t <= score_of query' t)%Q.
Proof.
  intros Hocc. destruct (dict_get t QUERY_KEYWORDS) as [pks|] eqn:Ht.
  - rewrite !(score_of_spec _ _ _ Ht).
    apply Q.min_le_compat_l. by apply weighted_sum_mono.
  - rewrite !score_of_outside by done. lra.
Qed.

(** The confidence is the score of the primary type. *)
Lemma confidence_is_primary_score query :
  confidence_score (_classify_query query)
  = score_of query (primary_type (_classify_query query)).
Proof.
  unfold score_of.
  destruct (classify_cases query)
    as [[Hts ->]|(h & r & l1 & l2 & _ & Hts & _ & _ & Hc)]; simpl.
  - by rewrite Hts.
  - assert (dict_get h.1 (type_scores query) = Some h.2) as Hh.
    { apply dict_get_elem; [apply type_scores_NoDup|]. rewrite Hts.
      apply elem_of_app. right. destruct h. left. }
    destruct (classify_primary_spec _ _ _ Hh) as (Hp & _). by rewrite Hp.
Qed.

(** X8: text added before or after a query never takes a match away: what
    was recorded for a type and a tier stays recorded, no type scores less
    and the confidence does not go down. *)
Theorem extending_query_keeps_matches (pre query post : string) :
  (forall t pks p kws,
     dict_get t QUERY_KEYWORDS = Some pks ->
     dict_get p pks = Some kws ->
     recorded query t p
       `sublist_of` recorded (pre +:+ query +:+ post) t p) /\
  (forall t, (score_of query t <= score_of (pre +:+ query +:+ post) t)%Q) /\
  (confidence_score (_classify_query query)
   <= confidence_score (_classify_query (pre +:+ query +:+ post)))%Q.
Proof.
  assert (forall kw,
            occurs_in kw (lower query) ->
            occurs_in kw (lower (pre +:+ query +:+ post))) as Hocc.
  { intros kw. apply occurs_in_lower_app. }
  split_and!.
  - intros t pks p kws Ht Hp.
    rewrite !(recorded_hits _ _ _ _ _ Ht Hp). by apply hits_mono.
  - intros t. by apply score_of_mono.
  - rewrite (confidence_is_primary_score query).
    eapply Qle_trans; [by apply score_of_mono|apply score_of_le_confidence].
Qed.

(** X9: matching looks for substrings, so a keyword that is part of
    another keyword is recorded whenever the longer one is, each for its
    own type and tier. *)
Theorem nested_keywords_match_together (query : string)
    (t1 t2 : QueryType) (pks1 pks2 : tiers) (p1 p2 : Priority)
    (kws1 kws2 : list string) (kw1 kw2 : string) :
  dict_get t1 QUERY_KEYWORDS = Some pks1 ->
  dict_get p1 pks1 = Some kws1 ->
  dict_get t2 QUERY_KEYWORDS = Some pks2 ->
  dict_get p2 pks2 = Some kws2 ->
  kw1 ∈ kws1 ->
  occurs_in kw1 kw2 ->
  kw2 ∈ recorded query t2 p2 ->
  kw1 ∈ recorded query t1 p1.
Proof.
  intros Ht1 Hp1 Ht2 Hp2 Hkw1 Hnested.
  rewrite (recorded_hits _ _ _ _ _ Ht1 Hp1), (recorded_hits _ _ _ _ _ Ht2 Hp2).
  rewrite !elem_of_hits. intros [_ Hocc]. split; [done|].
  by apply (occurs_in_trans _ kw2).
Qed.

Lemma nested_keywords_match_together_witness :
  "perform" ∈ recorded "Network Performance" PROCEDURE low_priority.
Proof.
  eapply (nested_keywords_match_together "Network Performance"
            PROCEDURE PERFORMANCE _ _ low_priority high_priority _ _
            "perform" "performance").
  - reflexivity.
  - reflexivity.
  - reflexivity.
  - reflexivity.
  - vm_compute. by repeat constructor.
  - exists "", "ance". reflexivity.
  - vm_compute. by repeat constructor.
Defined.

(** ** The primary section of the prompt *)

(** Every member but [GENERAL] has a template. *)
Lemma SPECIALIZED_CONTEXTS_total (t : QueryType) :
  t <> GENERAL -> exists context, dict_get t SPECIALIZED_CONTEXTS = Some context.
Proof.
  destruct t; intros Hne; try done;
    eexists; vm_compute; reflexivity.
Qed.

Lemma classify_primary_not_GENERAL query :
  no_keyword_matches query = false ->
  primary_type (_classify_query query) <> GENERAL.
Proof.
  intros Hno Hg.
  destruct (classify_cases query)
    as [[Hts _]|(h & r & l1 & l2 & _ & Hts & _ & _ & Hc)].
  - apply type_scores_nil in Hts. congruence.
  - rewrite Hc in Hg. simpl in Hg.
    apply (type_scores_not_GENERAL query h.1); [|done].
    rewrite Hts, fmap_app, fmap_cons. apply elem_of_app. right. left.
Qed.

(** X10: the prompt opens with the primary focus line, naming the primary
    type, followed by guidance that is the whole template of the primary
    type when some keyword matched, and the generic sentence exactly when
    none did. *)
Theorem prompt_primary_section (order : SetOrder) (query : string) :
  exists context post,
    generate_prompt order query
    = nl +:+ indent +:+ "Primary Focus - "
      +:+ value (primary_type (_classify_query query)) +:+ ":"
      +:+ nl +:+ indent +:+ context +:+ nl +:+ post /\
    (no_keyword_matches query = true ->
     primary_type (_classify_query query) = GENERAL /\
     context = generic_context) /\
    (no_keyword_matches query = false ->
     dict_get (primary_type (_classify_query query)) SPECIALIZED_CONTEXTS
     = Some context).
Proof.
  exists (default generic_context
            (dict_get (primary_type (_classify_query query))
               SPECIALIZED_CONTEXTS)).
  eexists. split_and!.
  - unfold generate_prompt, compose. rewrite !fstring_cons.
    apply (split_piece (nl +:+ indent) "Primary Focus - ").
    apply (f_equal (String.append "Primary Focus - ")).
    apply (f_equal (String.append _)).
    apply (split_piece ":" (nl +:+ indent)).
    apply (f_equal (String.append (nl +:+ indent))).
    apply (f_equal (String.append _)).
    reflexivity.
  - intros Hno. apply type_scores_nil, classify_fallback in Hno.
    by rewrite Hno.
  - intros Hno. apply classify_primary_not_GENERAL in Hno.
    destruct (SPECIALIZED_CONTEXTS_total _ Hno) as [context Hc].
    by rewrite Hc.
Qed.

(** ** The size of the secondary section *)

Lemma secondary_types_general_free query :
  GENERAL ∈ secondary_types (_classify_query query) -> False.
Proof.
  destruct (classify_cases query)
    as [[_ ->]|(h & r & l1 & l2 & Hs & _ & _ & _ & ->)]; simpl.
  - apply not_elem_of_empty.
  - intros Hin. apply elem_of_secondary_of in Hin as (s & Hin & _).
    pose proof (sorted_desc_perm (type_scores query)) as Hperm.
    rewrite Hs in Hperm.
    apply (type_scores_not_GENERAL query GENERAL); [|done].
    apply list_elem_of_fmap. exists (GENERAL, s). split; [done|].
    rewrite <- Hperm. by right.
Qed.

Lemma excerpt_of_length (t : QueryType) :
  length (excerpt_of SPECIALIZED_CONTEXTS t)
  = if decide (t = GENERAL) then 0 else 3.
Proof. destruct t; vm_compute; reflexivity. Qed.

Lemma flat_map_excerpt_length (l : list QueryType) :
  length (flat_map (excerpt_of SPECIALIZED_CONTEXTS) l)
  = 3 * length (List.filter (fun t => bool_decide (t <> GENERAL)) l).
Proof.
  induction l as [|t l IH]; [done|].
  cbn [flat_map List.filter]. rewrite length_app, IH, excerpt_of_length.
  destruct (decide (t = GENERAL)) as [->|Hne].
  - by rewrite bool_decide_eq_false_2 by (intros H; by apply H).
  - rewrite bool_decide_eq_true_2 by done. cbn [length]. lia.
Qed.

Lemma filter_not_GENERAL_size (s : gset QueryType) (l : list QueryType) :
  l ≡ₚ elements s ->
  length (List.filter (fun t => bool_decide (t <> GENERAL)) l)
  = size (s ∖ {[GENERAL]}).
Proof.
  intros Hl.
  assert (List.filter (fun t => bool_decide (t <> GENERAL)) l
          ≡ₚ elements (s ∖ {[GENERAL]})) as Hperm.
  { apply NoDup_Permutation.
    - apply NoDup_ListNoDup, List.NoDup_filter, NoDup_ListNoDup.
      rewrite Hl. apply NoDup_elements.
    - apply NoDup_elements.
    - intros t. rewrite list_elem_of_In, filter_In, <- list_elem_of_In.
      rewrite Hl, !elem_of_elements, bool_decide_eq_true.
      by rewrite elem_of_difference, elem_of_singleton. }
  by rewrite Hperm.
Qed.

(** X11: under "Additional Considerations" the prompt holds exactly three
    lines for every secondary type other than [GENERAL], which has no
    template and adds none; for the classifier's own result that is three
    lines for every secondary type, and no line exactly when there is no
    secondary type. *)
Theorem three_lines_per_secondary_type (order : SetOrder)
    (c : QueryClassification) (query : string) :
  length (secondary_contexts_of SPECIALIZED_CONTEXTS
            (visit order (secondary_types c)))
  = 3 * size (secondary_types c ∖ {[GENERAL]}) /\
  length (secondary_contexts_of SPECIALIZED_CONTEXTS
            (visit order (secondary_types (_classify_query query))))
  = 3 * size (secondary_types (_classify_query query)) /\
  (secondary_contexts_of SPECIALIZED_CONTEXTS
     (visit order (secondary_types (_classify_query query))) = []
   <-> secondary_types (_classify_query query) = ∅).
Proof.
  assert (forall c' : QueryClassification,
            length (secondary_contexts_of SPECIALIZED_CONTEXTS
                      (visit order (secondary_types c')))
            = 3 * size (secondary_types c' ∖ {[GENERAL]})) as Hgen.
  { intros c'. rewrite secondary_contexts_of_spec, flat_map_excerpt_length.
    f_equal. apply filter_not_GENERAL_size, visit_perm. }
  assert (secondary_types (_classify_query query) ∖ {[GENERAL]}
          = secondary_types (_classify_query query)) as Hno.
  { apply leibniz_equiv. intros t.
    rewrite elem_of_difference, elem_of_singleton. split; [by intros [? _]|].
    intros Hin. split; [done|]. intros ->.
    by apply secondary_types_general_free in Hin. }
  split_and!.
  - apply Hgen.
  - by rewrite Hgen, Hno.
  - rewrite <- length_zero_iff_nil, Hgen, Hno. split.
    + intros Hz. apply leibniz_equiv, size_empty_inv. lia.
    + intros ->. by rewrite size_empty.
Qed.

(** ** Splitting and joining *)

Lemma split_nonempty (sep : ascii) (s : string) : split sep s <> [].
Proof.
  destruct s as [|c s]; simpl; [done|].
  destruct (decide (c = sep)); [done|]. by destruct (split sep s).
Qed.

Lemma join_cons (sep x y : string) (l : list string) :
  join sep (x :: y :: l) = x +:+ sep +:+ join sep (y :: l).
Proof. reflexivity. Qed.

(** Joining the lines of a text with line breaks gives the text back. *)
Lemma join_split (s : string) : join nl (split newline s) = s.
Proof.
  induction s as [|c s IH]; [done|]. cbn [split].
  destruct (decide (c = newline)) as [->|Hne].
  - pose proof (split_nonempty newline s) as Hs.
    destruct (split newline s) as [|w ws]; [done|].
    by rewrite join_cons, IH.
  - destruct (split newline s) as [|w ws]; [by destruct s|].
    destruct ws as [|w' ws].
    + unfold join in *. simpl in *. by rewrite IH.
    + rewrite join_cons in *. by rewrite append_cons, IH.
Qed.

Lemma join_app (sep : string) (l1 l2 : list string) :
  l1 <> [] -> l2 <> [] ->
  join sep (l1 ++ l2) = join sep l1 +:+ sep +:+ join sep l2.
Proof.
  intros H1 H2. induction l1 as [|x l1 IH]; [done|].
  destruct l1 as [|y l1].
  - destruct l2 as [|z l2]; [done|]. reflexivity.
  - change ((x :: y :: l1) ++ l2) with (x :: (y :: l1) ++ l2).
    rewrite (join_cons sep x y l1).
    change ((y :: l1) ++ l2) with (y :: (l1 ++ l2)).
    rewrite (join_cons sep x y (l1 ++ l2)).
    change (y :: (l1 ++ l2)) with ((y :: l1) ++ l2).
    rewrite IH by done. by rewrite !append_assoc.
Qed.

(** X12: what a secondary type adds to the prompt is copied from its
    template in one piece: the excerpt lines, joined by line breaks, occur
    in the template as they stand. *)
Theorem excerpt_is_piece_of_template (contexts : list (QueryType * string))
    (t : QueryType) (context : string) :
  dict_get t contexts = Some context ->
  excerpt_of contexts t <> [] ->
  occurs_in (join nl (excerpt_of contexts t)) context.
Proof.
  intros Hctx. unfold excerpt_of. rewrite Hctx.
  pose proof (join_split context) as Hjoin.
  pose proof (split_nonempty newline context) as Hne.
  destruct (split newline context) as [|l0 rest]; [done|].
  unfold slice. change (4 - 1) with 3.
  change (drop 1 (l0 :: rest)) with rest. intros Hex.
  rewrite <- (take_drop 3 rest) in Hjoin.
  destruct (take 3 rest) as [|x xs]; [done|].
  destruct (drop 3 rest) as [|d ds].
  - rewrite app_nil_r, join_cons in Hjoin. exists (l0 +:+ nl), "".
    by rewrite append_nil_r, append_assoc.
  - change (l0 :: (x :: xs) ++ d :: ds)
      with (l0 :: x :: (xs ++ d :: ds)) in Hjoin.
    rewrite join_cons in Hjoin.
    change (x :: xs ++ d :: ds) with ((x :: xs) ++ d :: ds) in Hjoin.
    rewrite join_app in Hjoin by done.
    exists (l0 +:+ nl), (nl +:+ join nl (d :: ds)).
    by rewrite append_assoc.
Qed.

Lemma excerpt_is_piece_of_template_witness :
  occurs_in
    (join nl
       [ "        For security-related queries:";
         "        - Explain security mechanisms";
         "        - Detail key management" ])
    (default "" (dict_get SECURITY SPECIALIZED_CONTEXTS)).
Proof.
  apply (excerpt_is_piece_of_template SPECIALIZED_CONTEXTS SECURITY).
  - vm_compute. reflexivity.
  - vm_compute. discriminate.
Defined.

(** ** The score of any dictionary *)


(** ** What the 0.3 threshold means *)

Lemma above_threshold_counts (a b c : nat) :
  (3 # 10 < Qmin 1 (1 * inject_Z (Z.of_nat a)
                    + (6 # 10) * inject_Z (Z.of_nat b)
                    + (3 # 10) * inject_Z (Z.of_nat c)))%Q
  <-> 1 <= a \/ 1 <= b \/ 2 <= c.
Proof.
  set (x := inject_Z (Z.of_nat a)). set (y := inject_Z (Z.of_nat b)).
  set (z := inject_Z (Z.of_nat c)).
  assert ((3 < 10 * x + 6 * y + 3 * z)%Q <-> 1 <= a \/ 1 <= b \/ 2 <= c)
    as Hcount.
  { assert (10 * x + 6 * y + 3 * z
            == inject_Z (10 * Z.of_nat a + 6 * Z.of_nat b + 3 * Z.of_nat c))%Q
      as ->.
    { unfold x, y, z. rewrite !inject_Z_plus, !inject_Z_mult. reflexivity. }
    change 3%Q with (inject_Z 3). rewrite <- Zlt_Qlt. lia. }
  rewrite <- Hcount, Q.min_glb_lt_iff. split; [intros [_ H]|intros H; split];
    lra.
Qed.

(** X14: a type other than the primary one is secondary exactly when the
    query holds one of its high-priority keywords, or one of its
    medium-priority keywords, or at least two of its low-priority
    keywords; a single low-priority keyword is not enough. *)
Theorem secondary_needs_more_than_one_low_hit (query : string)
    (t : QueryType) (h m l : list string) :
  dict_get t QUERY_KEYWORDS = Some (entry h m l) ->
  t <> primary_type (_classify_query query) ->
  (t ∈ secondary_types (_classify_query query) <->
   1 <= length (recorded query t high_priority)
   \/ 1 <= length (recorded query t medium_priority)
   \/ 2 <= length (recorded query t low_priority)).
Proof.
  intros Ht Hne.
  rewrite (recorded_hits query t _ high_priority h Ht eq_refl).
  rewrite (recorded_hits query t _ medium_priority m Ht eq_refl).
  rewrite (recorded_hits query t _ low_priority l Ht eq_refl).
  rewrite <- above_threshold_counts, elem_of_secondary_types.
  assert (score_of query t
          == Qmin 1
               (1 * inject_Z (Z.of_nat (length (hits (lower query) h)))
                + (6 # 10) * inject_Z (Z.of_nat (length (hits (lower query) m)))
                + (3 # 10) * inject_Z (Z.of_nat (length (hits (lower query) l)))))%Q
    as Hscore.
  { rewrite (score_of_spec _ _ _ Ht). apply Q.min_compat; [reflexivity|].
    simpl. ring. }
  rewrite <- Hscore. unfold score_of. split.
  - by intros (_ & s & -> & Hgt).
  - intros Hgt. split; [done|].
    destruct (dict_get t (type_scores query)) as [s|]; simpl in Hgt; [|lra].
    by exists s.
Qed.

Lemma secondary_needs_more_than_one_low_hit_witness :
  FEATURE ∈ secondary_types (_classify_query "security: can we enable it?")
  <-> 1 <= length (recorded "security: can we enable it?" FEATURE high_priority)
      \/ 1 <= length (recorded "security: can we enable it?" FEATURE
                        medium_priority)
      \/ 2 <= length (recorded "security: can we enable it?" FEATURE
                        low_priority).
Proof.
  eapply (secondary_needs_more_than_one_low_hit
            "security: can we enable it?" FEATURE).
  - reflexivity.
  - vm_compute. discriminate.
Defined.

(** ** Case variants and the prompt *)

Lemma classify_case_variant query query' :
  case_variant query query' ->
  _classify_query query = _classify_query query'.
Proof.
  intros Hcv. apply case_variant_lower in Hcv.
  unfold _classify_query, _calculate_keyword_matches. by rewrite Hcv.
Qed.



(** ** Names of types as queries *)

(** X16: the value of every member of [QueryType], used as a query in any
    letter case, is classified as that member; "general" holds no keyword
    and falls back to [GENERAL]. *)
Theorem value_classified_as_itself (t : QueryType) (query : string) :
  case_variant query (value t) ->
  primary_type (_classify_query query) = t.
Proof.
  intros Hcv. rewrite (classify_case_variant _ _ Hcv).
  destruct t; vm_compute; reflexivity.
Qed.

Lemma value_classified_as_itself_witness :
  primary_type (_classify_query "Troubleshooting") = TROUBLESHOOTING.
Proof.
  apply (value_classified_as_itself TROUBLESHOOTING "Troubleshooting").
  apply case_variant_lower. vm_compute. reflexivity.
Defined.
